(** * Liar's Dice: the rules engine of [dice/lib/game.py]

    A shallow embedding of the classes [Bet], [Player] and [Game] and of the
    probability helpers, followed by the properties the specification states
    about them.

    Python objects are mutated in place and are shared by reference: the
    rotation list [Game.players] and the two pointers [current_player] and
    [previous_player] all denote the same [Player] objects.  The embedding
    therefore keeps one store of player objects, indexed by object identity,
    and lets the game hold identities only.  An exception does not roll
    anything back, so a computation returns its outcome together with the
    store as it stands at the moment the exception is raised. *)

From stdpp Require Import base numbers list gmap strings.
From Stdlib Require Import ZArith Lia QArith Qcanon Qabs Permutation.

Local Open Scope Z_scope.

(** ** Exceptions and the computation monad *)

(** The three messages [GameError] is raised with. *)
Inductive violation :=
  | MoreDiceThanOnTable (amount : Z)
  | InvalidDieFace (face : Z)
  | NotBetterThanCurrent.

(** [GameError] is the only exception the module defines; the others are the
    built-in ones its statements can raise. *)
Inductive exn :=
  | GameError (v : violation)
  | AttributeError
  | IndexError
  | ValueError
  | ZeroDivisionError
  | OverflowError.

Inductive result (A : Type) :=
  | Ok (a : A)
  | Raise (e : exn).
Arguments Ok {A} a.
Arguments Raise {A} e.

(** ** Data model *)

(** Identity of a [Player] object. *)
Definition ref := nat.

Record Bet := mkBet { amount : Z; face : Z }.

Record Player := mkPlayer {
  player_id : nat;
  player_name : string;
  player_dice_size : Z;
  dice : list Z
}.

Record Game := mkGame {
  dice_count : Z;
  dice_size : Z;
  players : list ref;
  current_bet : option Bet;
  previous_player : option ref;
  current_player : option ref
}.

(** Everything a call can read or write: the module global [_pid], the player
    objects, the game object, the default-argument lists of the two
    probability methods (created once, when the class body is evaluated),
    lists owned by callers, and the state of the [random] generator, given as
    an unconstrained stream of raw draws and a cursor into it. *)
Record World := mkWorld {
  pid_counter : nat;
  heap : gmap ref Player;
  game : Game;
  spot_on_default : list Z;
  bet_default : list Z;
  caller_lists : gmap nat (list Z);
  entropy : nat -> Z;
  rng_pos : nat
}.

Definition M (A : Type) : Type := World -> result A * World.

Definition ret {A} (a : A) : M A := fun w => (Ok a, w).

Definition raise {A} (e : exn) : M A := fun w => (Raise e, w).

Definition bind {A B} (m : M A) (k : A -> M B) : M B :=
  fun w =>
    match m w with
    | (Ok a, w') => k a w'
    | (Raise e, w') => (Raise e, w')
    end.

Declare Scope py_scope.
Delimit Scope py_scope with py.
Notation "'let*' x ':=' m 'in' k" := (bind m (fun x => k))
  (at level 10, x name, m at level 100, k at level 200) : py_scope.
Notation "m ';;' k" := (bind m (fun _ => k))
  (at level 100, k at level 200, right associativity) : py_scope.
Local Open Scope py_scope.

Definition gets {A} (f : World -> A) : M A := fun w => (Ok (f w), w).

Definition modify (f : World -> World) : M unit := fun w => (Ok tt, f w).

(** [for x in l: body(x)] over a list that the body does not resize. *)
Fixpoint for_each {A} (l : list A) (body : A -> M unit) : M unit :=
  match l with
  | [] => ret tt
  | x :: l' => body x ;; for_each l' body
  end.

(** [[f(x) for x in l]] *)
Fixpoint list_comp {A B} (l : list A) (f : A -> M B) : M (list B) :=
  match l with
  | [] => ret []
  | x :: l' => let* y := f x in let* ys := list_comp l' f in ret (y :: ys)
  end.

(** ** Field updates *)

Definition set_heap (h : gmap ref Player) (w : World) : World :=
  mkWorld (pid_counter w) h (game w) (spot_on_default w) (bet_default w)
          (caller_lists w) (entropy w) (rng_pos w).

Definition set_game (g : Game) (w : World) : World :=
  mkWorld (pid_counter w) (heap w) g (spot_on_default w) (bet_default w)
          (caller_lists w) (entropy w) (rng_pos w).

Definition set_rng_pos (n : nat) (w : World) : World :=
  mkWorld (pid_counter w) (heap w) (game w) (spot_on_default w) (bet_default w)
          (caller_lists w) (entropy w) n.

Definition set_pid_counter (n : nat) (w : World) : World :=
  mkWorld n (heap w) (game w) (spot_on_default w) (bet_default w)
          (caller_lists w) (entropy w) (rng_pos w).

Definition with_players (l : list ref) (g : Game) : Game :=
  mkGame (dice_count g) (dice_size g) l (current_bet g) (previous_player g)
         (current_player g).

Definition with_current_bet (b : option Bet) (g : Game) : Game :=
  mkGame (dice_count g) (dice_size g) (players g) b (previous_player g)
         (current_player g).

Definition with_previous_player (p : option ref) (g : Game) : Game :=
  mkGame (dice_count g) (dice_size g) (players g) (current_bet g) p
         (current_player g).

Definition with_current_player (p : option ref) (g : Game) : Game :=
  mkGame (dice_count g) (dice_size g) (players g) (current_bet g)
         (previous_player g) p.

Definition with_dice (d : list Z) (p : Player) : Player :=
  mkPlayer (player_id p) (player_name p) (player_dice_size p) d.

(** ** The store of player objects *)

(** An identity that was never allocated reads as a player without dice; no
    operation below manufactures such an identity. *)
Definition no_player : Player := mkPlayer 0 "" 0 [].

Definition deref (w : World) (r : ref) : Player :=
  default no_player (heap w !! r).

Definition hand (w : World) (r : ref) : list Z := dice (deref w r).

Definition get_player (r : ref) : M Player := gets (fun w => deref w r).

(** In-place update of the list object [self.dice]. *)
Definition put_dice (r : ref) (d : list Z) : M unit :=
  modify (fun w => set_heap (<[r := with_dice d (deref w r)]> (heap w)) w).

Definition get_game : M Game := gets game.

Definition update_game (f : Game -> Game) : M unit :=
  modify (fun w => set_game (f (game w)) w).

(** ** [random.randint] *)

(** [randint(a, b)] raises [ValueError] on an empty range and otherwise
    consumes one draw and returns a value of [a..b]. *)
Definition randint (a b : Z) : M Z :=
  fun w =>
    if b <? a then (Raise ValueError, w)
    else (Ok (a + entropy w (rng_pos w) `mod` (b - a + 1)),
          set_rng_pos (S (rng_pos w)) w).

(** ** class Bet *)

(** Comparison of two pairs of integers, as Python compares tuples. *)
Definition tuple_lt (x y : Z * Z) : bool :=
  if fst x =? fst y then snd x <? snd y else fst x <? fst y.

(** [Bet.__lt__]; the answer is [None] (Python's [None], which is falsy) when
    the other bet is [None]. *)
Definition Bet_lt (self : Bet) (other : option Bet) : option bool :=
  match other with
  | None => None
  | Some o => Some (tuple_lt (amount self, face self) (amount o, face o))
  end.

(** ** class Player *)

(** [Player.__init__]: takes the next identifier from [_pid] and rolls
    [dice_count] dice one by one. *)
Definition Player_init (name : string) (n_dice n_faces : Z) : M ref :=
  let* self := gets pid_counter in
  modify (fun w => set_pid_counter (S (pid_counter w)) w) ;;
  modify (fun w => set_heap (<[self := mkPlayer self name n_faces []]> (heap w)) w) ;;
  for_each (seq 0 (Z.to_nat n_dice)) (fun _ =>
    let* p := get_player self in
    let* v := randint 1 (player_dice_size p) in
    put_dice self (dice p ++ [v])) ;;
  ret self.

(** [Player.roll]: remembers the size of the hand, empties it and draws that
    many dice again. *)
Definition Player_roll (self : ref) : M unit :=
  let* p := get_player self in
  let count := length (dice p) in
  put_dice self [] ;;
  for_each (seq 0 count) (fun _ =>
    let* p := get_player self in
    let* v := randint 1 (player_dice_size p) in
    put_dice self (dice p ++ [v])).

(** [self.dice.pop()]: drops the last die, [IndexError] on an empty hand. *)
Definition Player_remove_die (self : ref) : M unit :=
  let* p := get_player self in
  match dice p with
  | [] => raise IndexError
  | _ :: _ => put_dice self (removelast (dice p))
  end.

(** Property [Player.lost]. *)
Definition Player_lost (w : World) (r : ref) : bool :=
  Nat.eqb (length (hand w r)) 0.

(** A method call through a pointer that may be [None]. *)
Definition on_player {A} (o : option ref) (method : ref -> M A) : M A :=
  match o with
  | None => raise AttributeError
  | Some r => method r
  end.

(** ** class Game *)

(** [Game.__init__] *)
Definition Game_init (player_names : list string) (n_dice n_faces : Z) : M unit :=
  update_game (fun _ => mkGame n_dice n_faces [] None None None) ;;
  for_each player_names (fun name =>
    let* g := get_game in
    let* p := Player_init name (dice_count g) (dice_size g) in
    update_game (fun g => with_players (players g ++ [p]) g)).

(** Property [dice_in_play]. *)
Definition dice_in_play (w : World) : Z :=
  foldr Z.add 0 (map (fun p => Z.of_nat (length (hand w p))) (players (game w))).

(** Property [all_dice]. *)
Definition all_dice (w : World) : list Z :=
  concat (map (hand w) (players (game w))).

(** Property [game_over]. *)
Definition game_over (w : World) : bool :=
  Nat.eqb (length (players (game w))) 1.

(** [list.count] *)
Definition count (x : Z) (l : list Z) : Z := Z.of_nat (count_occ Z.eq_dec l x).

(** [check_bet] and [check_spot_on] read [bet.face] and [bet.amount], which
    fails on [None]. *)
Definition Game_check_bet (bet : option Bet) : M bool :=
  let* pool := gets all_dice in
  match bet with
  | None => raise AttributeError
  | Some b => ret (amount b <=? count (face b) pool)
  end.

Definition Game_check_spot_on (bet : option Bet) : M bool :=
  let* pool := gets all_dice in
  match bet with
  | None => raise AttributeError
  | Some b => ret (count (face b) pool =? amount b)
  end.

(** [Game.next_player]: [previous_player] is assigned before [pop(0)], which
    raises [IndexError] on an empty list. *)
Definition Game_next_player : M ref :=
  let* g := get_game in
  update_game (with_previous_player (current_player g)) ;;
  let* g := get_game in
  match players g with
  | [] => raise IndexError
  | p :: rest =>
      update_game (with_players rest) ;;
      update_game (fun g => with_players (players g ++ [p]) g) ;;
      update_game (with_current_player (Some p)) ;;
      ret p
  end.

(** [list.remove]: deletes the first occurrence, [ValueError] if there is
    none. *)
Fixpoint list_remove (x : ref) (l : list ref) : option (list ref) :=
  match l with
  | [] => None
  | y :: l' => if Nat.eqb y x then Some l' else cons y <$> list_remove x l'
  end.

(** [Game.remove_lost_players] *)
Definition Game_remove_lost_players : M (list ref) :=
  let* lost_players := gets (fun w => filter (fun p => Player_lost w p = true) (players (game w))) in
  for_each lost_players (fun lp =>
    let* g := get_game in
    match list_remove lp (players g) with
    | None => raise ValueError
    | Some l => update_game (with_players l)
    end) ;;
  ret lost_players.

(** [Game.reset] *)
Definition Game_reset : M unit :=
  let* g := get_game in
  for_each (players g) Player_roll ;;
  update_game (with_current_bet None).

(** [Game.setup] *)
Definition Game_setup : M unit :=
  let* g := get_game in
  for_each (players g) Player_roll ;;
  update_game (with_current_player None) ;;
  update_game (with_previous_player None) ;;
  update_game (with_current_bet None) ;;
  Game_next_player ;;
  ret tt.

(** [Game.first_bet] *)
Definition Game_first_bet (bet : Bet) : M unit :=
  let* n := gets dice_in_play in
  if n <? amount bet then raise (GameError (MoreDiceThanOnTable (amount bet)))
  else
    let* g := get_game in
    if (dice_size g <? face bet) || (face bet <? 1)
    then raise (GameError (InvalidDieFace (face bet)))
    else update_game (with_current_bet (Some bet)).

(** [Game.place_bet]; reading [self.current_bet.amount] fails when there is
    no current bet. *)
Definition Game_place_bet (bet : Bet) : M unit :=
  let* n := gets dice_in_play in
  if n <? amount bet then raise (GameError (MoreDiceThanOnTable (amount bet)))
  else
    let* g := get_game in
    if (dice_size g <? face bet) || (face bet <? 1)
    then raise (GameError (InvalidDieFace (face bet)))
    else
      match current_bet g with
      | None => raise AttributeError
      | Some cur =>
          if (amount cur <? amount bet)
             || ((amount bet =? amount cur) && (face cur <? face bet))
          then update_game (with_current_bet (Some bet))
          else raise (GameError NotBetterThanCurrent)
      end.

(** [Game.call_bluff] *)
Definition Game_call_bluff : M bool :=
  let* g := get_game in
  let* satisfied := Game_check_bet (current_bet g) in
  if satisfied then
    on_player (current_player g) Player_remove_die ;;
    Game_reset ;;
    ret false
  else
    on_player (previous_player g) Player_remove_die ;;
    Game_reset ;;
    ret true.

(** Players are compared by identity: the class defines no [__eq__]. *)
Definition is_not (p : ref) (o : option ref) : bool :=
  match o with
  | None => true
  | Some c => negb (Nat.eqb p c)
  end.

(** [Game.call_spot_on] *)
Definition Game_call_spot_on : M bool :=
  let* g := get_game in
  let* exact := Game_check_spot_on (current_bet g) in
  if exact then
    for_each (players g) (fun p =>
      let* g := get_game in
      if is_not p (current_player g) then Player_remove_die p else ret tt) ;;
    Game_reset ;;
    ret true
  else
    on_player (current_player g) Player_remove_die ;;
    Game_reset ;;
    ret false.

(** ** Floating-point results *)

(** The probability methods compute with Python floats.  A finite float is
    represented by the rational it stands for (rounding is not modelled);
    [NaN] is kept because [scipy.special.binom] returns it, and the two
    errors Python raises in this arithmetic are kept: [ZeroDivisionError]
    (division by zero, zero to a negative power) and [OverflowError] (a power
    beyond the range of a double). *)
Inductive pyfloat :=
  | Fin (x : Qc)
  | NaN.

Definition fmul (a b : pyfloat) : pyfloat :=
  match a, b with
  | Fin x, Fin y => Fin (x * y)
  | _, _ => NaN
  end.

Definition fadd (a b : pyfloat) : pyfloat :=
  match a, b with
  | Fin x, Fin y => Fin (x + y)
  | _, _ => NaN
  end.

(** [a / b] on two integers. *)
Definition int_truediv (a b : Z) : result pyfloat :=
  if b =? 0 then Raise ZeroDivisionError
  else Ok (Fin (Qc_of_Z a / Qc_of_Z b)).

(** [x ** e] for a rational [x] and an integer exponent. *)
Definition Qc_zpow (x : Qc) (e : Z) : Qc :=
  if 0 <=? e then (x ^ Z.to_nat e)%Qc else ((/ x) ^ Z.to_nat (- e))%Qc.

(** A double holds magnitudes below [2 ** 1024]. *)
Definition in_double_range (x : Qc) : bool :=
  negb (Qle_bool (inject_Z (2 ^ 1024)) (Qabs x)).

(** [a ** e] on a float and an integer: anything to the power zero is one. *)
Definition fpow (a : pyfloat) (e : Z) : result pyfloat :=
  if e =? 0 then Ok (Fin 1)
  else
    match a with
    | NaN => Ok NaN
    | Fin x =>
        if bool_decide (x = 0%Qc) && (e <? 0) then Raise ZeroDivisionError
        else if in_double_range (Qc_zpow x e) then Ok (Fin (Qc_zpow x e))
        else Raise OverflowError
    end.

(** Pascal's triangle. *)
Fixpoint choose (n k : nat) : nat :=
  match k, n with
  | O, _ => 1
  | S _, O => 0
  | S k', S n' => choose n' k' + choose n' k
  end.

(** [scipy.special.binom] on integer arguments: undefined (NaN) when the
    first one is negative, zero when the second one is outside [0..n]. *)
Definition binom (n k : Z) : pyfloat :=
  if n <? 0 then NaN
  else if (k <? 0) || (n <? k) then Fin 0
  else Fin (Qc_of_Z (Z.of_nat (choose (Z.to_nat n) (Z.to_nat k)))).

(** [sum(xs)]: left to right, starting from zero. *)
Definition py_sum (xs : list pyfloat) : pyfloat := fold_left fadd xs (Fin 0).

(** [range(a, b)] *)
Definition range (a b : Z) : list Z := seqZ a (b - a).

Definition lift {A} (r : result A) : M A := fun w => (r, w).

(** ** The probability methods *)

(** The list objects a caller can pass as [known_dice]: a player's hand (as
    the interface does), one of the two default-argument lists, or a list of
    the caller's own. *)
Inductive list_ref :=
  | HandOf (p : ref)
  | SpotOnDefault
  | BetDefault
  | CallerList (k : nat).

Definition read_list (l : list_ref) (w : World) : list Z :=
  match l with
  | HandOf p => hand w p
  | SpotOnDefault => spot_on_default w
  | BetDefault => bet_default w
  | CallerList k => default [] (caller_lists w !! k)
  end.

(** [spot_on_equation]; a call that omits [known_dice] binds it to
    [SpotOnDefault]. *)
Definition Game_spot_on_equation
    (die_face dice_amount pool : Z) (known_dice : list_ref) : M pyfloat :=
  let* c := gets (fun w => count die_face (read_list known_dice w)) in
  let dice_amount := dice_amount - c in
  let* len := gets (fun w => Z.of_nat (length (read_list known_dice w))) in
  let pool := pool - len in
  let q := dice_amount in
  let n := pool in
  let c := binom n q in
  let* g := get_game in
  let* x := lift (int_truediv 1 (dice_size g)) in
  let* a := lift (fpow x q) in
  let* y := lift (int_truediv (dice_size g - 1) (dice_size g)) in
  let* b := lift (fpow y (n - q)) in
  ret (fmul (fmul c a) b).

(** [bet_equation]; a call that omits [known_dice] binds it to
    [BetDefault].  The inner calls omit it. *)
Definition Game_bet_equation
    (die_face dice_amount pool : Z) (known_dice : list_ref) : M pyfloat :=
  let* c := gets (fun w => count die_face (read_list known_dice w)) in
  let dice_amount := dice_amount - c in
  let* len := gets (fun w => Z.of_nat (length (read_list known_dice w))) in
  let pool := pool - len in
  let* terms := list_comp (range dice_amount (pool + 1))
                  (fun i => Game_spot_on_equation die_face i pool SpotOnDefault) in
  ret (py_sum terms).

(** ** Sample tables *)

Definition seat (i : nat) (name : string) (faces : Z) (d : list Z) : ref * Player :=
  (i, mkPlayer i name faces d).

(** A fixed stream of raw draws for the examples. *)
Definition sample_entropy (n : nat) : Z := Z.of_nat (7 * n + 3).

(** Three players with one six-sided die each, pool [[2; 5; 6]], the bet
    "one 2" on the table; it is the first player's turn and the third one
    made the bet. *)
Definition table3 : World :=
  mkWorld 3
    (list_to_map [seat 0 "ann" 6 [2]; seat 1 "bob" 6 [5]; seat 2 "cy" 6 [6]])
    (mkGame 1 6 [0; 1; 2]%nat (Some (mkBet 1 2)) (Some 2%nat) (Some 0%nat))
    [] [] ∅ sample_entropy 0.

(** Two players with one die each and the bet "two 3s": the hands are
    [[3]] and [[3]], or [[3]] and [[4]]. *)
Definition table2 (second : Z) : World :=
  mkWorld 2
    (list_to_map [seat 0 "ann" 6 [3]; seat 1 "bob" 6 [second]])
    (mkGame 1 6 [0; 1]%nat (Some (mkBet 2 3)) (Some 1%nat) (Some 0%nat))
    [] [] ∅ sample_entropy 0.

(** A table between rounds: no bet yet. *)
Definition table3_no_bet : World :=
  set_game (with_current_bet None (game table3)) table3.

(** The last player is out and has been taken off the rotation, which is now
    empty, while [current_player] still points at them. *)
Definition empty_table : World :=
  mkWorld 1
    (list_to_map [seat 0 "ann" 6 []])
    (mkGame 1 6 [] None None (Some 0%nat))
    [] [] ∅ sample_entropy 0.

(** A game whose dice have a single face. *)
Definition one_face_table : World :=
  mkWorld 0 ∅ (mkGame 5 1 [] None None None) [] [] ∅ sample_entropy 0.


(** ** Preconditions *)

(** The two range checks shared by [first_bet] and [place_bet]. *)
Definition passes_range_checks (w : World) (b : Bet) : Prop :=
  amount b <= dice_in_play w /\ 1 <= face b <= dice_size (game w).

(** The invariant of a player object: every die shows one of its faces. *)
Definition player_ok (p : Player) : Prop :=
  Forall (fun v => 1 <= v <= player_dice_size p) (dice p).

(** Every player of the rotation satisfies the player invariant. *)
Definition rotation_ok (w : World) : Prop :=
  forall r, r ∈ players (game w) -> player_ok (deref w r).

(** Every player of the rotation holds at least one die. *)
Definition all_hold_dice (w : World) : Prop :=
  forall r, r ∈ players (game w) -> hand w r <> [].

(** A player that can be rolled: [roll] draws nothing for an empty hand and
    needs at least one face otherwise. *)
Definition rollable (w : World) (r : ref) : Prop :=
  hand w r = [] \/ 1 <= player_dice_size (deref w r).

(** Everything but the hands and the cursor of the generator is the same. *)
Definition same_table (w w' : World) : Prop :=
  game w' = game w /\ pid_counter w' = pid_counter w
  /\ spot_on_default w' = spot_on_default w /\ bet_default w' = bet_default w
  /\ caller_lists w' = caller_lists w /\ entropy w' = entropy w.

(** The effect of rolling the players [l]: every player keeps its identity,
    name, faces and number of dice; the players of [l] hold fresh dice
    showing faces of theirs; the hands of the others are untouched. *)
Definition rerolled (l : list ref) (w w' : World) : Prop :=
  forall r, exists d,
    deref w' r = with_dice d (deref w r)
    /\ length d = length (hand w r)
    /\ (r ∈ l -> Forall (fun v => 1 <= v <= player_dice_size (deref w r)) d)
    /\ (r ∉ l -> d = hand w r).

(** The store after player [r] has dropped the last die of a hand. *)
Definition lose_die (r : ref) (w : World) : World :=
  set_heap (<[r := with_dice (removelast (hand w r)) (deref w r)]> (heap w)) w.

(** The same for several players, one after the other. *)
Definition lose_dice (l : list ref) (w : World) : World :=
  foldl (fun w r => lose_die r w) w l.

(** The players of the rotation other than [c], in rotation order. *)
Definition others (c : ref) (w : World) : list ref :=
  filter (fun r => r <> c) (players (game w)).

(** Executable forms of the two preconditions, for concrete tables. *)
Definition rotation_okb (w : World) : bool :=
  forallb (fun r =>
    forallb (fun v => (1 <=? v) && (v <=? player_dice_size (deref w r))) (hand w r))
    (players (game w)).

Definition all_hold_diceb (w : World) : bool :=
  forallb (fun r => negb (Nat.eqb (length (hand w r)) 0)) (players (game w)).

(** ** The mutators of a game *)

Inductive mutator :=
  | Setup
  | NextPlayer
  | FirstBet (b : Bet)
  | PlaceBet (b : Bet)
  | CallBluff
  | CallSpotOn
  | RemoveLostPlayers.

(** A call whose return value is dropped. *)
Definition void {A} (m : M A) : M unit := m ;; ret tt.

Definition run_mutator (m : mutator) : M unit :=
  match m with
  | Setup => Game_setup
  | NextPlayer => void Game_next_player
  | FirstBet b => Game_first_bet b
  | PlaceBet b => Game_place_bet b
  | CallBluff => void Game_call_bluff
  | CallSpotOn => void Game_call_spot_on
  | RemoveLostPlayers => void Game_remove_lost_players
  end.

(** The states in which a mutator is all-or-nothing: the bets and the
    removal of lost players in every state; [call_bluff] when the dice of the
    rotation show faces of their players; [next_player] and [setup] on a
    non-empty rotation; [call_spot_on] when in addition the players of the
    rotation are distinct and all hold dice. *)
Definition admits (m : mutator) (w : World) : Prop :=
  match m with
  | FirstBet _ | PlaceBet _ | RemoveLostPlayers => True
  | CallBluff => rotation_ok w
  | NextPlayer => players (game w) <> []
  | Setup => players (game w) <> [] /\ rotation_ok w
  | CallSpotOn => NoDup (players (game w)) /\ rotation_ok w /\ all_hold_dice w
  end.

(** A rotation in which the second player has no dice left but has not been
    removed yet; the first player holds the only 2 and it is the third
    player's turn. *)
Definition table_with_loser : World :=
  mkWorld 3
    (list_to_map [seat 0 "ann" 6 [2]; seat 1 "bob" 6 []; seat 2 "cy" 6 [6]])
    (mkGame 1 6 [0; 1; 2]%nat (Some (mkBet 1 2)) (Some 1%nat) (Some 2%nat))
    [] [] ∅ sample_entropy 0.

(** ** The probability formulas of the specification *)




(** The formula of the mass as Python evaluates it, with the errors its
    divisions and powers can raise. *)
Definition binomial_mass_float (d m q : Z) : result pyfloat :=
  match int_truediv 1 d with
  | Raise e => Raise e
  | Ok x =>
    match fpow x q with
    | Raise e => Raise e
    | Ok a =>
      match int_truediv (d - 1) d with
      | Raise e => Raise e
      | Ok y =>
        match fpow y (m - q) with
        | Raise e => Raise e
        | Ok b => Ok (fmul (fmul (binom m q) a) b)
        end
      end
    end
  end.

(** The first error of a list of results, or all the values. *)
Fixpoint collect {A} (rs : list (result A)) : result (list A) :=
  match rs with
  | [] => Ok []
  | Raise e :: _ => Raise e
  | Ok a :: rs' =>
      match collect rs' with
      | Ok l => Ok (a :: l)
      | Raise e => Raise e
      end
  end.

(** The masses of [q .. m] summed up in Python. *)
Definition at_least_float (d m q : Z) : result pyfloat :=
  match collect (map (binomial_mass_float d m) (range q (m + 1))) with
  | Ok terms => Ok (py_sum terms)
  | Raise e => Raise e
  end.


(** What no method of the module writes: the default-argument lists, the
    callers' lists and the stream of raw draws. *)
Definition untouched (w w' : World) : Prop :=
  spot_on_default w' = spot_on_default w /\ bet_default w' = bet_default w
  /\ caller_lists w' = caller_lists w /\ entropy w' = entropy w.

Definition leaves_untouched {A} (m : M A) : Prop :=
  forall w, untouched w (snd (m w)).

(** ** The comparisons the decorators add to [Bet] *)

(** [Bet.__eq__], generated by [@dataclass]: the two pairs of fields are
    equal; a bet is not equal to [None]. *)
Definition Bet_eq (self : Bet) (other : option Bet) : bool :=
  match other with
  | None => false
  | Some o => (amount self =? amount o) && (face self =? face o)
  end.

(** [Bet.__gt__], added by [@total_ordering] from [__lt__] and [__eq__]:
    [not (self < other) and self != other].  The [None] that [__lt__]
    answers for a missing bet is falsy. *)
Definition Bet_gt (self : Bet) (other : option Bet) : bool :=
  negb (default false (Bet_lt self other)) && negb (Bet_eq self other).

(** ** The dice a roll draws *)

(** The die [randint(1, faces)] makes of the raw draw at position [k]. *)
Definition die_at (w : World) (faces : Z) (k : nat) : Z :=
  1 + entropy w k `mod` (faces - 1 + 1).

(** The dice of [n] successive calls, the first one at the cursor. *)
Definition draws (w : World) (faces : Z) (n : nat) : list Z :=
  map (die_at w faces) (seq (rng_pos w) n).

(** ** Several turns in a row *)

(** [k] successive calls of [next_player], with the players they return. *)
Fixpoint next_player_times (k : nat) : M (list ref) :=
  match k with
  | O => ret []
  | S k' =>
      let* p := Game_next_player in
      let* ps := next_player_times k' in
      ret (p :: ps)
  end.

(** The pair (current, previous) after the players [l] have taken their
    turns one after the other. *)
Definition turn_pointers (start : option ref * option ref) (l : list ref)
    : option ref * option ref :=
  foldl (fun cp x => (Some x, fst cp)) start l.

(** ** What a call can only take away *)

(** Between [w] and [w']: no hand has grown; no player object has changed
    its identifier, name or dice size; the rotation has gained no player; the
    dimensions of the game and the identifier counter are the same. *)
Definition no_more (w w' : World) : Prop :=
  (forall r, (length (hand w' r) <= length (hand w r))%nat)
  /\ (forall r, with_dice [] (deref w' r) = with_dice [] (deref w r))
  /\ (forall r, r ∈ players (game w') -> r ∈ players (game w))
  /\ dice_count (game w') = dice_count (game w)
  /\ dice_size (game w') = dice_size (game w)
  /\ pid_counter w' = pid_counter w.

Definition adds_nothing {A} (m : M A) : Prop :=
  forall w, no_more w (snd (m w)).

(** ** The interface's colours *)

(** The list literal of [GameInterface.color_from_player]. *)
Definition colors : list string :=
  ["red"; "green"; "blue"; "yellow"; "magenta"; "cyan"; "orange1"; "purple";
   "brown"; "gray"].

(** [l[i]] for an index that is not negative. *)
Definition list_index {A} (l : list A) (i : nat) : result A :=
  match l !! i with
  | Some x => Ok x
  | None => Raise IndexError
  end.

(** [GameInterface.color_from_player]; it reads nothing of the interface. *)
Definition color_from_player (p : ref) : M string :=
  let* pl := get_player p in
  lift (list_index colors (player_id pl mod length colors)).

(** ** The interface's prompts *)

(** What a prompt that reads lines from the keyboard comes to: an answer
    together with the lines not read yet, an exception, or the end of the
    input, at which [input()] raises [EOFError].  What the prompts print is
    not part of the state. *)
Inductive answer (A : Type) :=
  | Answered (a : A) (rest : list string)
  | Failed (e : exn)
  | EndOfInput.
Arguments Answered {A} a rest.
Arguments Failed {A} e.
Arguments EndOfInput {A}.

Section Prompts.

(** [str.isnumeric] and [int] of a line; [int] of a string either returns
    or raises [ValueError]. *)
Variable isnumeric : string -> bool.
Variable int : string -> option Z.

(** [int(x) if x.isnumeric() else 0] *)
Definition read_number (line : string) : result Z :=
  if isnumeric line then
    match int line with
    | Some v => Ok v
    | None => Raise ValueError
    end
  else Ok 0.

(** A loop of [get_valid_bet]: it asks again until the number typed is
    between 1 and [hi]. *)
Fixpoint ask_in_range (hi : Z) (lines : list string) : answer Z :=
  match lines with
  | [] => EndOfInput
  | line :: rest =>
      match read_number line with
      | Raise e => Failed e
      | Ok v =>
          if negb ((1 <=? v) && (v <=? hi)) then ask_in_range hi rest
          else Answered v rest
      end
  end.

(** [GameInterface.get_valid_bet]: first the face, then the count. *)
Definition get_valid_bet (w : World) (lines : list string) : answer Bet :=
  match ask_in_range (dice_size (game w)) lines with
  | Answered die_face rest =>
      match ask_in_range (dice_in_play w) rest with
      | Answered die_count rest' => Answered (mkBet die_count die_face) rest'
      | Failed e => Failed e
      | EndOfInput => EndOfInput
      end
  | Failed e => Failed e
  | EndOfInput => EndOfInput
  end.

(** The loop of [GameInterface.place_bet]: it asks for bets until one is
    above the current bet.  Every round reads a line, so [fuel] rounds are
    enough for [fuel] lines. *)
Fixpoint ask_higher_bet (fuel : nat) (w : World) (lines : list string) : answer Bet :=
  match fuel with
  | O => EndOfInput
  | S fuel' =>
      match get_valid_bet w lines with
      | Answered bet rest =>
          if Bet_gt bet (current_bet (game w)) then Answered bet rest
          else ask_higher_bet fuel' w rest
      | Failed e => Failed e
      | EndOfInput => EndOfInput
      end
  end.

(** A call of the game that ends a prompt. *)
Definition then_call (a : answer Bet) (method : Bet -> M unit) (w : World)
    : answer unit * World :=
  match a with
  | Answered bet rest =>
      match method bet w with
      | (Ok _, w') => (Answered tt rest, w')
      | (Raise e, w') => (Failed e, w')
      end
  | Failed e => (Failed e, w)
  | EndOfInput => (EndOfInput, w)
  end.

(** [GameInterface.first_bet], from the prompt on. *)
Definition GameInterface_first_bet (w : World) (lines : list string)
    : answer unit * World :=
  then_call (get_valid_bet w lines) Game_first_bet w.

(** [GameInterface.place_bet], from the loop on. *)
Definition GameInterface_place_bet (w : World) (lines : list string)
    : answer unit * World :=
  then_call (ask_higher_bet (length lines) w lines) Game_place_bet w.

End Prompts.

(** The two functions on lines of ASCII characters, for the examples: such
    a line is numeric when it is a non-empty row of digits, and then [int]
    reads it in base ten. *)
Definition digit_value (c : Ascii.ascii) : option Z :=
  let n := Z.of_nat (Ascii.nat_of_ascii c) in
  if (48 <=? n) && (n <=? 57) then Some (n - 48) else None.

Fixpoint decimal (acc : Z) (s : string) : option Z :=
  match s with
  | EmptyString => Some acc
  | String c s' =>
      match digit_value c with
      | Some d => decimal (10 * acc + d) s'
      | None => None
      end
  end.

Definition ascii_int (s : string) : option Z :=
  match s with
  | EmptyString => None
  | _ => decimal 0 s
  end.

Definition ascii_isnumeric (s : string) : bool :=
  match ascii_int s with
  | Some _ => true
  | None => false
  end.

(** * Properties *)

(** ** Turn rotation *)

Ltac run := unfold bind, gets, modify, ret, raise, lift, get_game, update_game,
                   get_player, put_dice, on_player; simpl.

(** *** Running a computation step by step *)

Lemma bind_ok {A B} (m : M A) (k : A -> M B) (w w' : World) (a : A) :
  m w = (Ok a, w') -> bind m k w = k a w'.
Proof. intros H. unfold bind. rewrite H. reflexivity. Qed.

Lemma bind_fail {A B} (m : M A) (k : A -> M B) (w w' : World) (e : exn) :
  m w = (Raise e, w') -> bind m k w = (Raise e, w').
Proof. intros H. unfold bind. rewrite H. reflexivity. Qed.

Lemma bind_gets {A B} (f : World -> A) (k : A -> M B) (w : World) :
  bind (gets f) k w = k (f w) w.
Proof. reflexivity. Qed.

Lemma bind_get_game {B} (k : Game -> M B) (w : World) :
  bind get_game k w = k (game w) w.
Proof. reflexivity. Qed.

Lemma bind_ret {A B} (a : A) (k : A -> M B) (w : World) :
  bind (ret a) k w = k a w.
Proof. reflexivity. Qed.

Lemma bind_raise {A B} (e : exn) (k : A -> M B) (w : World) :
  bind (raise e) k w = (Raise e, w).
Proof. reflexivity. Qed.

Lemma bind_update_game {B} (f : Game -> Game) (k : unit -> M B) (w : World) :
  bind (update_game f) k w = k tt (set_game (f (game w)) w).
Proof. reflexivity. Qed.

Lemma bind_assoc {A B C} (m : M A) (f : A -> M B) (g : B -> M C) (w : World) :
  bind (bind m f) g w = bind m (fun x => bind (f x) g) w.
Proof. unfold bind. destruct (m w) as [[a | e] w']; reflexivity. Qed.

Ltac step :=
  first [ rewrite bind_get_game | rewrite bind_gets | rewrite bind_ret
        | rewrite bind_raise | rewrite bind_update_game | rewrite bind_assoc ];
  cbv beta.

Lemma Game_next_player_cons (w : World) (p : ref) (rest : list ref) :
  players (game w) = p :: rest ->
  Game_next_player w =
    (Ok p,
     set_game (mkGame (dice_count (game w)) (dice_size (game w)) (rest ++ [p])
                      (current_bet (game w)) (current_player (game w)) (Some p)) w).
Proof. intros Hp. unfold Game_next_player. run. rewrite Hp. reflexivity. Qed.

Lemma Game_next_player_nil (w : World) :
  players (game w) = [] ->
  Game_next_player w =
    (Raise IndexError, set_game (with_previous_player (current_player (game w)) (game w)) w).
Proof. intros Hp. unfold Game_next_player. run. rewrite Hp. reflexivity. Qed.

(** C8: on a non-empty rotation [p :: rest], [next_player] returns [p],
    leaves the rotation as [rest ++ [p]] (a permutation of the old one that
    keeps the order of the others), makes [p] the current player and the
    former current player the previous one, and changes nothing else. *)
Theorem next_player_rotates (w : World) (p : ref) (rest : list ref) :
  players (game w) = p :: rest ->
  Game_next_player w =
    (Ok p,
     set_game (mkGame (dice_count (game w)) (dice_size (game w)) (rest ++ [p])
                      (current_bet (game w)) (current_player (game w)) (Some p)) w)
  /\ Permutation (players (game w)) (rest ++ [p]).
Proof.
  intros Hp. split.
  - apply Game_next_player_cons. exact Hp.
  - rewrite Hp. apply Permutation_cons_append.
Qed.

Lemma next_player_rotates_witness :
  players (game table3) = 0%nat :: [1; 2]%nat
  /\ (Game_next_player table3 =
        (Ok 0%nat,
         set_game (mkGame (dice_count (game table3)) (dice_size (game table3))
                          ([1; 2]%nat ++ [0%nat]) (current_bet (game table3))
                          (current_player (game table3)) (Some 0%nat)) table3)
      /\ Permutation (players (game table3)) ([1; 2]%nat ++ [0%nat])).
Proof.
  split; [reflexivity | apply (next_player_rotates table3 0%nat [1; 2]%nat); reflexivity].
Defined.

(** ** Bet legality *)

Lemma first_bet_range_rejected (w : World) (b : Bet) :
  ~ passes_range_checks w b ->
  exists v, Game_first_bet b w = (Raise (GameError v), w).
Proof.
  intros Hr. unfold Game_first_bet. run.
  destruct (Z.ltb_spec (dice_in_play w) (amount b)) as [Ha | Ha]; [eauto |].
  destruct (Z.ltb_spec (dice_size (game w)) (face b)) as [Hf | Hf]; simpl; [eauto |].
  destruct (Z.ltb_spec (face b) 1) as [Hg | Hg]; simpl; [eauto |].
  exfalso. apply Hr. unfold passes_range_checks. lia.
Qed.

Lemma place_bet_range_rejected (w : World) (b : Bet) :
  ~ passes_range_checks w b ->
  exists v, Game_place_bet b w = (Raise (GameError v), w).
Proof.
  intros Hr. unfold Game_place_bet. run.
  destruct (Z.ltb_spec (dice_in_play w) (amount b)) as [Ha | Ha]; [eauto |].
  destruct (Z.ltb_spec (dice_size (game w)) (face b)) as [Hf | Hf]; simpl; [eauto |].
  destruct (Z.ltb_spec (face b) 1) as [Hg | Hg]; simpl; [eauto |].
  exfalso. apply Hr. unfold passes_range_checks. lia.
Qed.

Lemma first_bet_accepted (w : World) (b : Bet) :
  passes_range_checks w b ->
  Game_first_bet b w = (Ok tt, set_game (with_current_bet (Some b) (game w)) w).
Proof.
  intros [Ha [Hf Hg]]. unfold Game_first_bet. run.
  destruct (Z.ltb_spec (dice_in_play w) (amount b)); [lia |].
  destruct (Z.ltb_spec (dice_size (game w)) (face b)); [lia |].
  destruct (Z.ltb_spec (face b) 1); [lia |]. reflexivity.
Qed.

Lemma dice_in_play_nonneg (w : World) : 0 <= dice_in_play w.
Proof.
  unfold dice_in_play. induction (players (game w)) as [| r l IH]; simpl; lia.
Qed.

(** C3, at the input where the code departs from it: with three dice on the
    table, [first_bet] takes the bet "zero 3s" and makes it the current
    bet. *)
Theorem first_bet_accepts_amount_zero :
  Game_first_bet (mkBet 0 3) table3_no_bet =
    (Ok tt, set_game (with_current_bet (Some (mkBet 0 3)) (game table3_no_bet)) table3_no_bet).
Proof. reflexivity. Qed.

(** The same holds for every amount below one, on every table. *)
Lemma first_bet_accepts_nonpositive_amounts (w : World) (b : Bet) :
  amount b <= 0 -> 1 <= face b <= dice_size (game w) ->
  Game_first_bet b w = (Ok tt, set_game (with_current_bet (Some b) (game w)) w).
Proof.
  intros Ha Hf. apply first_bet_accepted. split; [| exact Hf].
  pose proof (dice_in_play_nonneg w). lia.
Qed.

(** [place_bet] after a bet of amount zero takes another one. *)
Lemma place_bet_accepts_amount_zero :
  let w := set_game (with_current_bet (Some (mkBet 0 3)) (game table3)) table3 in
  Game_place_bet (mkBet 0 4) w =
    (Ok tt, set_game (with_current_bet (Some (mkBet 0 4)) (game w)) w).
Proof. reflexivity. Qed.

Lemma place_bet_decides (w : World) (cur b : Bet) :
  passes_range_checks w b ->
  current_bet (game w) = Some cur ->
  Game_place_bet b w =
    if tuple_lt (amount cur, face cur) (amount b, face b)
    then (Ok tt, set_game (with_current_bet (Some b) (game w)) w)
    else (Raise (GameError NotBetterThanCurrent), w).
Proof.
  intros [Ha [Hf Hg]] Hc. unfold Game_place_bet. run.
  destruct (Z.ltb_spec (dice_in_play w) (amount b)); [lia |].
  destruct (Z.ltb_spec (dice_size (game w)) (face b)); [lia |].
  destruct (Z.ltb_spec (face b) 1); [lia |]. simpl.
  rewrite Hc. unfold tuple_lt. simpl.
  destruct (Z.eqb_spec (amount cur) (amount b)) as [E | E].
  - rewrite E, Z.ltb_irrefl, Z.eqb_refl. simpl.
    destruct (face cur <? face b); reflexivity.
  - destruct (Z.ltb_spec (amount cur) (amount b)); simpl; [reflexivity |].
    destruct (Z.eqb_spec (amount b) (amount cur)); [congruence | reflexivity].
Qed.

(** C5: for bets [b1 < b2] in the (amount, face) order of [Bet.__lt__] that
    both pass the range checks, [place_bet] takes [b2] over [b1] and refuses
    [b1] over [b2] with a [GameError]; it refuses a bet equal to the current
    one; and it takes a bet exactly when the current bet is strictly below
    it. *)
Theorem place_bet_strictly_increasing (w : World) (b1 b2 : Bet) :
  passes_range_checks w b1 -> passes_range_checks w b2 ->
  Bet_lt b1 (Some b2) = Some true ->
  let on b := set_game (with_current_bet (Some b) (game w)) w in
  Game_place_bet b2 (on b1) = (Ok tt, on b2)
  /\ Game_place_bet b1 (on b2) = (Raise (GameError NotBetterThanCurrent), on b2)
  /\ Game_place_bet b2 (on b2) = (Raise (GameError NotBetterThanCurrent), on b2)
  /\ (forall cur b, passes_range_checks w b ->
        (Game_place_bet b (on cur) = (Ok tt, on b) <-> Bet_lt cur (Some b) = Some true)
        /\ (Bet_lt cur (Some b) = Some false ->
            Game_place_bet b (on cur) = (Raise (GameError NotBetterThanCurrent), on cur))).
Proof.
  intros H1 H2 Hlt on.
  assert (Hdec : forall cur b, passes_range_checks w b ->
            Game_place_bet b (on cur) =
              if tuple_lt (amount cur, face cur) (amount b, face b)
              then (Ok tt, on b)
              else (Raise (GameError NotBetterThanCurrent), on cur)).
  { intros cur b Hb. rewrite (place_bet_decides (on cur) cur b); [| exact Hb | reflexivity].
    reflexivity. }
  assert (Hlt' : tuple_lt (amount b1, face b1) (amount b2, face b2) = true).
  { simpl in Hlt. congruence. }
  assert (Hrev : tuple_lt (amount b2, face b2) (amount b1, face b1) = false).
  { revert Hlt'. unfold tuple_lt. simpl.
    destruct (Z.eqb_spec (amount b1) (amount b2)) as [E | E]; intros Hlt'.
    - rewrite E, Z.eqb_refl. apply Z.ltb_lt in Hlt'. apply Z.ltb_ge. lia.
    - destruct (Z.eqb_spec (amount b2) (amount b1)); [congruence |].
      apply Z.ltb_lt in Hlt'. apply Z.ltb_ge. lia. }
  assert (Hirr : tuple_lt (amount b2, face b2) (amount b2, face b2) = false).
  { unfold tuple_lt. simpl. rewrite Z.eqb_refl. apply Z.ltb_irrefl. }
  split; [rewrite Hdec, Hlt'; auto |].
  split; [rewrite Hdec, Hrev; auto |].
  split; [rewrite Hdec, Hirr; auto |].
  intros cur b Hb. rewrite Hdec by assumption. unfold Bet_lt.
  destruct (tuple_lt (amount cur, face cur) (amount b, face b)).
  - split; [split; reflexivity | discriminate].
  - split; [split; discriminate | reflexivity].
Qed.

Lemma place_bet_strictly_increasing_witness :
  passes_range_checks table3 (mkBet 1 2)
  /\ passes_range_checks table3 (mkBet 2 1)
  /\ Bet_lt (mkBet 1 2) (Some (mkBet 2 1)) = Some true
  /\ Game_place_bet (mkBet 2 1)
       (set_game (with_current_bet (Some (mkBet 1 2)) (game table3)) table3)
     = (Ok tt, set_game (with_current_bet (Some (mkBet 2 1)) (game table3)) table3).
Proof.
  assert (H1 : passes_range_checks table3 (mkBet 1 2)) by (vm_compute; intuition discriminate).
  assert (H2 : passes_range_checks table3 (mkBet 2 1)) by (vm_compute; intuition discriminate).
  assert (H3 : Bet_lt (mkBet 1 2) (Some (mkBet 2 1)) = Some true) by reflexivity.
  split; [exact H1 |]. split; [exact H2 |]. split; [exact H3 |].
  exact (proj1 (place_bet_strictly_increasing table3 (mkBet 1 2) (mkBet 2 1) H1 H2 H3)).
Defined.

(** ** Challenges without an active bet *)

(** C4 as stated does not hold: on a table without a bet both challenges
    stop with [AttributeError], which is not the [GameError] raised for
    illegal bets. *)
Lemma challenge_without_bet_is_not_game_error :
  fst (Game_call_bluff table3_no_bet) = Raise AttributeError
  /\ fst (Game_call_spot_on table3_no_bet) = Raise AttributeError
  /\ ~ (exists v, fst (Game_call_bluff table3_no_bet) = Raise (GameError v))
  /\ ~ (exists v, fst (Game_call_spot_on table3_no_bet) = Raise (GameError v)).
Proof.
  split; [reflexivity |]. split; [reflexivity |].
  split; intros [v Hv]; vm_compute in Hv; discriminate.
Qed.

(** C4, amended: with no active bet, [call_bluff] and [call_spot_on] both
    fail, with [AttributeError], and leave the whole state as it was. *)
Theorem challenge_without_bet_fails (w : World) :
  current_bet (game w) = None ->
  Game_call_bluff w = (Raise AttributeError, w)
  /\ Game_call_spot_on w = (Raise AttributeError, w).
Proof.
  intros Hb. unfold Game_call_bluff, Game_call_spot_on, Game_check_bet, Game_check_spot_on.
  run. rewrite Hb. split; reflexivity.
Qed.

Lemma challenge_without_bet_fails_witness :
  current_bet (game table3_no_bet) = None
  /\ Game_call_bluff table3_no_bet = (Raise AttributeError, table3_no_bet)
  /\ Game_call_spot_on table3_no_bet = (Raise AttributeError, table3_no_bet).
Proof.
  split; [reflexivity | apply (challenge_without_bet_fails table3_no_bet); reflexivity].
Defined.

(** ** Rolling *)

Lemma deref_put_eq (w : World) (r : ref) (p : Player) :
  deref (set_heap (<[r := p]> (heap w)) w) r = p.
Proof. unfold deref. simpl. rewrite lookup_insert_eq. reflexivity. Qed.

Lemma deref_put_ne (w : World) (r r' : ref) (p : Player) :
  r' <> r -> deref (set_heap (<[r := p]> (heap w)) w) r' = deref w r'.
Proof. intros Hne. unfold deref. simpl. rewrite lookup_insert_ne by congruence. reflexivity. Qed.

Lemma with_dice_id (p : Player) : with_dice (dice p) p = p.
Proof. destruct p; reflexivity. Qed.

Lemma same_table_refl (w : World) : same_table w w.
Proof. repeat split. Qed.

Lemma same_table_trans (w1 w2 w3 : World) :
  same_table w1 w2 -> same_table w2 w3 -> same_table w1 w3.
Proof. unfold same_table. intuition congruence. Qed.

Lemma randint_in_range (a b : Z) (w : World) :
  a <= b ->
  exists v, randint a b w = (Ok v, set_rng_pos (S (rng_pos w)) w) /\ a <= v <= b.
Proof.
  intros Hab. unfold randint. destruct (Z.ltb_spec b a); [lia |].
  eexists. split; [reflexivity |].
  pose proof (Z.mod_pos_bound (entropy w (rng_pos w)) (b - a + 1)). lia.
Qed.

(** The loop of [roll] and of [Player.__init__]: one die appended per
    iteration. *)
Lemma draw_loop {A} (r : ref) (l : list A) : forall w,
  l = [] \/ 1 <= player_dice_size (deref w r) ->
  exists w' new,
    for_each l (fun _ =>
      let* p := get_player r in
      let* v := randint 1 (player_dice_size p) in
      put_dice r (dice p ++ [v])) w = (Ok tt, w')
    /\ same_table w w'
    /\ deref w' r = with_dice (hand w r ++ new) (deref w r)
    /\ (forall r', r' <> r -> deref w' r' = deref w r')
    /\ length new = length l
    /\ Forall (fun v => 1 <= v <= player_dice_size (deref w r)) new.
Proof.
  induction l as [| x l IH]; intros w Hds.
  - exists w, []. simpl. unfold ret, hand. rewrite app_nil_r, with_dice_id.
    repeat split; auto using same_table_refl.
  - destruct Hds as [Hnil | Hds]; [discriminate |].
    destruct (randint_in_range 1 (player_dice_size (deref w r)) w Hds) as (v & Hv & Hin).
    set (w0 := set_rng_pos (S (rng_pos w)) w) in *.
    set (w1 := set_heap (<[r := with_dice (dice (deref w r) ++ [v]) (deref w0 r)]> (heap w0)) w0).
    assert (Hr1 : deref w1 r = with_dice (hand w r ++ [v]) (deref w r))
      by (unfold w1; rewrite deref_put_eq; reflexivity).
    assert (Hn1 : forall r', r' <> r -> deref w1 r' = deref w r')
      by (intros r' Hne; unfold w1; rewrite deref_put_ne by exact Hne; reflexivity).
    destruct (IH w1) as (w' & new & Hrun & Hst & Hr & Hn & Hlen & Hall).
    { right. rewrite Hr1. simpl. exact Hds. }
    exists w', (v :: new). split.
    { simpl. unfold bind at 1. unfold bind at 1. unfold get_player, gets.
      unfold bind at 1. rewrite Hv. unfold put_dice, modify. fold w0. fold w1.
      exact Hrun. }
    split; [apply (same_table_trans w w1 w'); [repeat split | exact Hst] |].
    split.
    { rewrite Hr. unfold hand. rewrite Hr1. simpl. rewrite <- app_assoc. reflexivity. }
    split; [intros r' Hne; rewrite Hn by exact Hne; apply Hn1; exact Hne |].
    split; [simpl; congruence |].
    constructor; [exact Hin |]. rewrite Hr1 in Hall. exact Hall.
Qed.

Lemma Player_roll_spec (r : ref) (w : World) :
  rollable w r ->
  exists w', Player_roll r w = (Ok tt, w') /\ same_table w w' /\ rerolled [r] w w'.
Proof.
  intros Hroll. unfold Player_roll.
  set (w0 := set_heap (<[r := with_dice [] (deref w r)]> (heap w)) w).
  assert (Hr0 : deref w0 r = with_dice [] (deref w r)) by (unfold w0; apply deref_put_eq).
  destruct (draw_loop r (seq 0 (length (dice (deref w r)))) w0)
    as (w' & new & Hrun & Hst & Hr & Hn & Hlen & Hall).
  { destruct Hroll as [Hnil | Hds].
    - left. unfold hand in Hnil. rewrite Hnil. reflexivity.
    - right. rewrite Hr0. exact Hds. }
  exists w'. split.
  { unfold bind at 1. unfold get_player, gets. unfold bind at 1.
    unfold put_dice, modify. fold w0. exact Hrun. }
  split; [apply (same_table_trans w w0 w'); [repeat split | exact Hst] |].
  intros r'. destruct (decide (r' = r)) as [-> | Hne].
  - exists new. split; [rewrite Hr; unfold hand; rewrite Hr0; reflexivity |].
    split; [rewrite Hlen, length_seq; reflexivity |].
    split; [intros _; rewrite Hr0 in Hall; exact Hall |].
    intros Hnot. exfalso. apply Hnot. left.
  - exists (hand w r'). split.
    { rewrite Hn by exact Hne. unfold w0. rewrite deref_put_ne by exact Hne.
      unfold hand. symmetry. apply with_dice_id. }
    split; [reflexivity |]. split; [| reflexivity].
    intros Hin. apply list_elem_of_singleton in Hin. contradiction.
Qed.

Lemma rerolled_rollable (l : list ref) (w w' : World) (r : ref) :
  rerolled l w w' -> rollable w r -> rollable w' r.
Proof.
  intros Hre [Hnil | Hds]; destruct (Hre r) as (d & Hd & Hlen & _).
  - left. unfold hand. rewrite Hd. simpl. rewrite Hnil in Hlen.
    destruct d; [reflexivity | discriminate].
  - right. rewrite Hd. exact Hds.
Qed.

Lemma roll_all_spec (l : list ref) : forall w,
  (forall r, r ∈ l -> rollable w r) ->
  exists w', for_each l Player_roll w = (Ok tt, w') /\ same_table w w' /\ rerolled l w w'.
Proof.
  induction l as [| x l IH]; intros w Hroll.
  - exists w. split; [reflexivity |]. split; [apply same_table_refl |].
    intros r. exists (hand w r). unfold hand. rewrite with_dice_id.
    repeat split; auto. intros Hin. inversion Hin.
  - destruct (Player_roll_spec x w) as (w1 & Hrun1 & Hst1 & Hre1).
    { apply Hroll. left. }
    destruct (IH w1) as (w' & Hrun & Hst & Hre).
    { intros r Hin. apply (rerolled_rollable [x] w w1); [exact Hre1 |].
      apply Hroll. right. exact Hin. }
    exists w'. split; [simpl; unfold bind; rewrite Hrun1; exact Hrun |].
    split; [apply (same_table_trans w w1 w'); assumption |].
    intros r. destruct (Hre1 r) as (d1 & Hd1 & Hlen1 & Hin1 & Hout1).
    destruct (Hre r) as (d & Hd & Hlen & Hin & Hout).
    exists d. split; [rewrite Hd, Hd1; reflexivity |].
    split; [rewrite Hlen; unfold hand at 1; rewrite Hd1; exact Hlen1 |].
    split.
    + intros Hr. destruct (decide (r ∈ l)) as [Hl | Hl].
      * specialize (Hin Hl). rewrite Hd1 in Hin. exact Hin.
      * rewrite (Hout Hl). unfold hand. rewrite Hd1. simpl.
        apply Hin1. apply list_elem_of_singleton.
        apply elem_of_cons in Hr. destruct Hr; [assumption | contradiction].
    + intros Hr. rewrite not_elem_of_cons in Hr. destruct Hr as [Hne Hl].
      rewrite (Hout Hl). unfold hand at 1. rewrite Hd1. simpl.
      apply Hout1. intros H1. apply list_elem_of_singleton in H1. contradiction.
Qed.

(** After [reset] the bet is cleared, the turn pointers and the rotation are
    what they were, every hand has the size it had, and every die of the
    rotation shows a face of its player. *)
Lemma Game_reset_spec (w : World) :
  (forall r, r ∈ players (game w) -> rollable w r) ->
  exists w', Game_reset w = (Ok tt, w')
    /\ game w' = with_current_bet None (game w)
    /\ pid_counter w' = pid_counter w
    /\ spot_on_default w' = spot_on_default w /\ bet_default w' = bet_default w
    /\ caller_lists w' = caller_lists w /\ entropy w' = entropy w
    /\ rerolled (players (game w)) w w'.
Proof.
  intros Hroll.
  destruct (roll_all_spec (players (game w)) w Hroll) as (w1 & Hrun & Hst & Hre).
  destruct Hst as (Hg & Hp & Hs & Hb & Hc & He).
  exists (set_game (with_current_bet None (game w1)) w1).
  split; [unfold Game_reset; run; rewrite Hrun; reflexivity |].
  simpl. rewrite Hg. repeat split; auto.
Qed.

Lemma player_ok_rollable (w : World) (r : ref) : player_ok (deref w r) -> rollable w r.
Proof.
  unfold player_ok, rollable, hand. intros Hok.
  destruct (dice (deref w r)) as [| v d]; [left; reflexivity | right].
  inversion Hok; subst. lia.
Qed.

Lemma rerolled_length (l : list ref) (w w' : World) (r : ref) :
  rerolled l w w' -> length (hand w' r) = length (hand w r).
Proof.
  intros Hre. destruct (Hre r) as (d & Hd & Hlen & _).
  unfold hand at 1. rewrite Hd. exact Hlen.
Qed.

Lemma rerolled_player_ok (l : list ref) (w w' : World) (r : ref) :
  rerolled l w w' -> r ∈ l -> player_ok (deref w' r).
Proof.
  intros Hre Hin. destruct (Hre r) as (d & Hd & _ & Hall & _).
  unfold player_ok. rewrite Hd. simpl. apply Hall. exact Hin.
Qed.

(** ** Losing dice *)

Lemma removelast_length_pred {A} (l : list A) :
  length (removelast l) = Nat.pred (length l).
Proof.
  rewrite removelast_firstn_len, length_firstn. lia.
Qed.

Lemma Player_remove_die_ok (r : ref) (w : World) :
  hand w r <> [] -> Player_remove_die r w = (Ok tt, lose_die r w).
Proof.
  intros Hne. unfold Player_remove_die, lose_die, hand in *. run.
  destruct (dice (deref w r)); [contradiction | reflexivity].
Qed.

Lemma Player_remove_die_empty (r : ref) (w : World) :
  hand w r = [] -> Player_remove_die r w = (Raise IndexError, w).
Proof.
  intros Hnil. unfold Player_remove_die, hand in *. run. rewrite Hnil. reflexivity.
Qed.

Lemma deref_lose_die_eq (r : ref) (w : World) :
  deref (lose_die r w) r = with_dice (removelast (hand w r)) (deref w r).
Proof. apply deref_put_eq. Qed.

Lemma deref_lose_die_ne (r r' : ref) (w : World) :
  r' <> r -> deref (lose_die r w) r' = deref w r'.
Proof. apply deref_put_ne. Qed.

Lemma hand_lose_die (r r' : ref) (w : World) :
  hand (lose_die r w) r' = if decide (r' = r) then removelast (hand w r') else hand w r'.
Proof.
  unfold hand. destruct (decide (r' = r)) as [-> | Hne].
  - rewrite deref_lose_die_eq. reflexivity.
  - rewrite deref_lose_die_ne by exact Hne. reflexivity.
Qed.

Lemma faces_lose_die (r r' : ref) (w : World) :
  player_dice_size (deref (lose_die r w) r') = player_dice_size (deref w r').
Proof.
  destruct (decide (r' = r)) as [-> | Hne].
  - rewrite deref_lose_die_eq. reflexivity.
  - rewrite deref_lose_die_ne by exact Hne. reflexivity.
Qed.

Lemma Forall_removelast {A} (P : A -> Prop) (l : list A) :
  Forall P l -> Forall P (removelast l).
Proof.
  induction 1 as [| x l Hx Hl IH]; [constructor |].
  destruct l; [constructor |]. change (Forall P (x :: removelast (a :: l))).
  constructor; assumption.
Qed.

Lemma player_ok_lose_die (r r' : ref) (w : World) :
  player_ok (deref w r') -> player_ok (deref (lose_die r w) r').
Proof.
  unfold player_ok. intros Hok. rewrite faces_lose_die.
  fold (hand (lose_die r w) r'). rewrite hand_lose_die.
  destruct (decide (r' = r)); [apply Forall_removelast |]; exact Hok.
Qed.

Lemma game_lose_dice (l : list ref) : forall w, game (lose_dice l w) = game w.
Proof.
  induction l as [| x l IH]; intros w; [reflexivity |].
  simpl. rewrite IH. reflexivity.
Qed.

Lemma same_table_lose_dice (l : list ref) : forall w, same_table w (lose_dice l w).
Proof.
  induction l as [| x l IH]; intros w; [apply same_table_refl |].
  simpl. apply (same_table_trans w (lose_die x w)); [repeat split | apply IH].
Qed.

Lemma player_ok_lose_dice (l : list ref) (r : ref) : forall w,
  player_ok (deref w r) -> player_ok (deref (lose_dice l w) r).
Proof.
  induction l as [| x l IH]; intros w Hok; [exact Hok |].
  simpl. apply IH. apply player_ok_lose_die. exact Hok.
Qed.

Lemma hand_lose_dice (l : list ref) (r : ref) : forall w,
  NoDup l ->
  hand (lose_dice l w) r = if decide (r ∈ l) then removelast (hand w r) else hand w r.
Proof.
  induction l as [| x l IH]; intros w Hnd.
  - simpl. destruct (decide (r ∈ [])) as [Hin | _]; [inversion Hin | reflexivity].
  - apply NoDup_cons in Hnd. destruct Hnd as [Hx Hnd].
    simpl. rewrite IH by exact Hnd. rewrite hand_lose_die.
    destruct (decide (r = x)) as [-> | Hne].
    + destruct (decide (x ∈ l)); [contradiction |].
      destruct (decide (x ∈ x :: l)) as [_ | Hout]; [reflexivity |].
      exfalso. apply Hout. left.
    + destruct (decide (r ∈ l)) as [Hin | Hout].
      * destruct (decide (r ∈ x :: l)) as [_ | Hout]; [reflexivity |].
        exfalso. apply Hout. right. exact Hin.
      * destruct (decide (r ∈ x :: l)) as [Hin | _]; [| reflexivity].
        apply elem_of_cons in Hin. destruct Hin; contradiction.
Qed.

Lemma spot_on_step (c x : ref) (w : World) :
  current_player (game w) = Some c ->
  (let* g := get_game in
   if is_not x (current_player g) then Player_remove_die x else ret tt) w
  = if decide (x <> c) then Player_remove_die x w else (Ok tt, w).
Proof.
  intros Hc. unfold bind, get_game, gets. rewrite Hc. unfold is_not.
  destruct (Nat.eqb_spec x c) as [E | E]; destruct (decide (x <> c)); simpl;
    try reflexivity; contradiction.
Qed.

(** The loop of [call_spot_on] over the rotation. *)
Lemma spot_on_loop (c : ref) (l : list ref) : forall w,
  current_player (game w) = Some c ->
  NoDup l ->
  (forall r, r ∈ l -> r <> c -> hand w r <> []) ->
  for_each l (fun p =>
    let* g := get_game in
    if is_not p (current_player g) then Player_remove_die p else ret tt) w
  = (Ok tt, lose_dice (filter (fun r => r <> c) l) w).
Proof.
  induction l as [| x l IH]; intros w Hc Hnd Hdice; [reflexivity |].
  apply NoDup_cons in Hnd. destruct Hnd as [Hx Hnd].
  simpl for_each. unfold bind at 1. rewrite (spot_on_step c x w Hc).
  rewrite filter_cons.
  destruct (decide (x <> c)) as [Hne | Heq].
  - rewrite Player_remove_die_ok by (apply Hdice; [left | exact Hne]).
    simpl lose_dice. apply IH; [exact Hc | exact Hnd |].
    intros r Hin Hrc. rewrite hand_lose_die.
    destruct (decide (r = x)) as [-> | _]; [contradiction |].
    apply Hdice; [right; exact Hin | exact Hrc].
  - apply IH; [exact Hc | exact Hnd |].
    intros r Hin Hrc. apply Hdice; [right; exact Hin | exact Hrc].
Qed.

(** ** Counting the dice in play *)

Lemma dice_in_play_after (w w' : World) (g : ref -> nat) :
  players (game w') = players (game w) ->
  (forall r, r ∈ players (game w) ->
     (length (hand w' r) + g r = length (hand w r))%nat) ->
  dice_in_play w' =
    dice_in_play w - foldr Z.add 0 (map (fun r => Z.of_nat (g r)) (players (game w))).
Proof.
  unfold dice_in_play. intros -> Hg.
  induction (players (game w)) as [| x l IH]; [reflexivity |].
  simpl. rewrite IH by (intros r Hr; apply Hg; right; exact Hr).
  assert (Hx : x ∈ x :: l) by left. specialize (Hg x Hx). lia.
Qed.

Lemma indicator_sum_out (x : ref) (l : list ref) :
  x ∉ l ->
  foldr Z.add 0 (map (fun r => Z.of_nat (if decide (r = x) then 1 else 0)) l) = 0.
Proof.
  induction l as [| y l IH]; intros Hout; [reflexivity |].
  apply not_elem_of_cons in Hout. destruct Hout as [Hne Hout].
  simpl. rewrite IH by exact Hout.
  destruct (decide (y = x)); [congruence | reflexivity].
Qed.

Lemma indicator_sum_in (x : ref) (l : list ref) :
  NoDup l -> x ∈ l ->
  foldr Z.add 0 (map (fun r => Z.of_nat (if decide (r = x) then 1 else 0)) l) = 1.
Proof.
  induction l as [| y l IH]; intros Hnd Hin; [inversion Hin |].
  apply NoDup_cons in Hnd. destruct Hnd as [Hy Hnd]. simpl.
  destruct (decide (y = x)) as [-> | Hne].
  - rewrite indicator_sum_out by exact Hy. reflexivity.
  - apply elem_of_cons in Hin. destruct Hin as [-> | Hin]; [contradiction |].
    rewrite IH by assumption. reflexivity.
Qed.

Lemma others_sum (c : ref) (l : list ref) :
  foldr Z.add 0 (map (fun r => Z.of_nat (if decide (r <> c) then 1 else 0)) l)
  = Z.of_nat (length (filter (fun r => r <> c) l)).
Proof.
  induction l as [| y l IH]; [reflexivity |].
  simpl foldr. rewrite IH, filter_cons.
  destruct (decide (y <> c)); simpl length; lia.
Qed.

(** ** Resolution of a challenge *)

Lemma rotation_rollable_after (l : list ref) (w : World) :
  rotation_ok w ->
  forall r, r ∈ players (game (lose_dice l w)) -> rollable (lose_dice l w) r.
Proof.
  intros Hok r Hin. apply player_ok_rollable, player_ok_lose_dice, Hok.
  rewrite game_lose_dice in Hin. exact Hin.
Qed.

(** A list of losers drop a die each, then the round is reset. *)
Lemma lose_then_reset (l : list ref) (w : World) :
  rotation_ok w ->
  exists w',
    Game_reset (lose_dice l w) = (Ok tt, w')
    /\ game w' = with_current_bet None (game w)
    /\ pid_counter w' = pid_counter w
    /\ spot_on_default w' = spot_on_default w /\ bet_default w' = bet_default w
    /\ caller_lists w' = caller_lists w /\ entropy w' = entropy w
    /\ rotation_ok w'
    /\ (forall r, length (hand w' r) = length (hand (lose_dice l w) r))
    /\ (forall r, player_dice_size (deref w' r) = player_dice_size (deref w r)).
Proof.
  intros Hok.
  destruct (Game_reset_spec (lose_dice l w) (rotation_rollable_after l w Hok))
    as (w' & Hrun & Hg & Hp & Hs & Hb & Hc & He & Hre).
  destruct (same_table_lose_dice l w) as (Hg0 & Hp0 & Hs0 & Hb0 & Hc0 & He0).
  exists w'. split; [exact Hrun |].
  split; [rewrite Hg, Hg0; reflexivity |].
  split; [congruence |]. split; [congruence |]. split; [congruence |].
  split; [congruence |]. split; [congruence |].
  split.
  { intros r Hin. apply (rerolled_player_ok _ _ _ _ Hre).
    rewrite Hg in Hin. exact Hin. }
  split; [intros r; apply (rerolled_length _ _ _ _ Hre) |].
  intros r. destruct (Hre r) as (d & Hd & _). rewrite Hd. simpl.
  clear. revert w. induction l as [| x l IH]; intros w; [reflexivity |].
  simpl. rewrite IH. apply faces_lose_die.
Qed.

(** C1: with a bet on the table and a current and a previous player who hold
    dice, [call_bluff] counts the dice showing the bet's face in all hands of
    the rotation.  If there are at least as many as the bet says, the current
    player drops one die and the answer is [False]; otherwise the previous
    player drops one die and the answer is [True].  Then the round is reset:
    the bet is cleared and every hand keeps its size, so exactly one die has
    left the game. *)
Theorem call_bluff_resolves (w : World) (b : Bet) (c p : ref) :
  current_bet (game w) = Some b ->
  current_player (game w) = Some c ->
  previous_player (game w) = Some p ->
  rotation_ok w -> hand w c <> [] -> hand w p <> [] ->
  let satisfied := amount b <=? count (face b) (all_dice w) in
  let loser := if satisfied then c else p in
  exists w',
    Game_call_bluff w = (Ok (negb satisfied), w')
    /\ Game_reset (lose_die loser w) = (Ok tt, w')
    /\ game w' = with_current_bet None (game w)
    /\ (forall r, length (hand w' r) =
          if decide (r = loser) then Nat.pred (length (hand w r))
          else length (hand w r))
    /\ length (hand w loser) = S (length (hand w' loser))
    /\ (NoDup (players (game w)) -> loser ∈ players (game w) ->
        dice_in_play w' = dice_in_play w - 1).
Proof.
  intros Hb Hc Hp Hok Hdc Hdp satisfied loser.
  assert (Hdl : hand w loser <> []) by (unfold loser; destruct satisfied; assumption).
  destruct (lose_then_reset [loser] w Hok)
    as (w' & Hrun & Hg & _ & _ & _ & _ & _ & _ & Hlen & _).
  change (lose_dice [loser] w) with (lose_die loser w) in *.
  assert (Hsize : forall r, length (hand w' r) =
            if decide (r = loser) then Nat.pred (length (hand w r))
            else length (hand w r)).
  { intros r. rewrite Hlen, hand_lose_die.
    destruct (decide (r = loser)); [apply removelast_length_pred | reflexivity]. }
  exists w'. split.
  { unfold Game_call_bluff, Game_check_bet. run. rewrite Hb, Hc, Hp.
    fold satisfied. unfold loser in *. destruct satisfied; simpl.
    - rewrite (Player_remove_die_ok c w Hdc), Hrun. reflexivity.
    - rewrite (Player_remove_die_ok p w Hdp), Hrun. reflexivity. }
  split; [exact Hrun |]. split; [exact Hg |]. split; [exact Hsize |].
  split.
  { rewrite Hsize. destruct (decide (loser = loser)); [| contradiction].
    destruct (hand w loser); [contradiction | reflexivity]. }
  intros Hnd Hin.
  rewrite (dice_in_play_after w w' (fun r => if decide (r = loser) then 1%nat else 0%nat)).
  - rewrite (indicator_sum_in loser _ Hnd Hin). reflexivity.
  - rewrite Hg. reflexivity.
  - intros r _. rewrite Hsize. destruct (decide (r = loser)) as [-> | _]; [| lia].
    destruct (hand w loser); [contradiction | simpl; lia].
Qed.

Lemma rotation_okb_sound (w : World) : rotation_okb w = true -> rotation_ok w.
Proof.
  unfold rotation_okb, rotation_ok, player_ok. intros H r Hin.
  rewrite forallb_forall in H. apply list_elem_of_In in Hin.
  specialize (H r Hin). rewrite forallb_forall in H.
  apply List.Forall_forall. intros v Hv. specialize (H v Hv).
  apply andb_true_iff in H. destruct H as [H1 H2].
  apply Z.leb_le in H1. apply Z.leb_le in H2. lia.
Defined.

Lemma all_hold_diceb_sound (w : World) : all_hold_diceb w = true -> all_hold_dice w.
Proof.
  unfold all_hold_diceb, all_hold_dice. intros H r Hin Hnil.
  rewrite forallb_forall in H. apply list_elem_of_In in Hin.
  specialize (H r Hin). rewrite Hnil in H. discriminate.
Defined.

Lemma call_bluff_resolves_witness :
  current_bet (game (table2 3)) = Some (mkBet 2 3)
  /\ current_player (game (table2 3)) = Some 0%nat
  /\ previous_player (game (table2 3)) = Some 1%nat
  /\ rotation_ok (table2 3)
  /\ hand (table2 3) 0%nat <> [] /\ hand (table2 3) 1%nat <> []
  /\ (exists w',
        Game_call_bluff (table2 3) = (Ok false, w')
        /\ length (hand w' 0%nat) = 0%nat /\ length (hand w' 1%nat) = 1%nat
        /\ current_bet (game w') = None)
  /\ (exists w',
        Game_call_bluff (table2 4) = (Ok true, w')
        /\ length (hand w' 0%nat) = 1%nat /\ length (hand w' 1%nat) = 0%nat
        /\ current_bet (game w') = None).
Proof.
  assert (Hok : forall v, rotation_okb (table2 v) = true -> rotation_ok (table2 v))
    by (intros v; apply rotation_okb_sound).
  assert (H0 : forall v, hand (table2 v) 0%nat <> []) by discriminate.
  assert (H1 : forall v, hand (table2 v) 1%nat <> []) by discriminate.
  assert (H3 : rotation_okb (table2 3) = true) by reflexivity.
  assert (H4 : rotation_okb (table2 4) = true) by reflexivity.
  repeat (split; [first [reflexivity | apply Hok; assumption | apply H0 | apply H1] |]).
  split.
  - destruct (call_bluff_resolves (table2 3) (mkBet 2 3) 0%nat 1%nat
                eq_refl eq_refl eq_refl (Hok 3 H3) (H0 3) (H1 3))
      as (w' & Hrun & _ & Hg & Hsize & _).
    exists w'. split; [exact Hrun |].
    split; [exact (Hsize 0%nat) |]. split; [exact (Hsize 1%nat) |].
    rewrite Hg. reflexivity.
  - destruct (call_bluff_resolves (table2 4) (mkBet 2 3) 0%nat 1%nat
                eq_refl eq_refl eq_refl (Hok 4 H4) (H0 4) (H1 4))
      as (w' & Hrun & _ & Hg & Hsize & _).
    exists w'. split; [exact Hrun |].
    split; [exact (Hsize 0%nat) |]. split; [exact (Hsize 1%nat) |].
    rewrite Hg. reflexivity.
Defined.

Lemma elem_of_others (c r : ref) (w : World) :
  r ∈ others c w <-> r <> c /\ r ∈ players (game w).
Proof. unfold others. rewrite list_elem_of_filter. reflexivity. Qed.

Lemma sum_ext (f g : ref -> nat) (l : list ref) :
  (forall r, r ∈ l -> f r = g r) ->
  foldr Z.add 0 (map (fun r => Z.of_nat (f r)) l)
  = foldr Z.add 0 (map (fun r => Z.of_nat (g r)) l).
Proof.
  induction l as [| y l IH]; intros H; [reflexivity |].
  simpl. rewrite IH by (intros r Hr; apply H; right; exact Hr).
  rewrite (H y) by left. reflexivity.
Qed.

(** C2: with a bet on the table and a current player, [call_spot_on] counts
    the dice showing the bet's face.  If the count is exactly the bet's
    amount, every player of the rotation other than the current one drops one
    die and the answer is [True]; otherwise the current player alone drops
    one die and the answer is [False].  Then the round is reset.  The two
    sets of losers never mix. *)
Theorem call_spot_on_resolves (w : World) (b : Bet) (c : ref) :
  current_bet (game w) = Some b ->
  current_player (game w) = Some c ->
  NoDup (players (game w)) -> rotation_ok w -> all_hold_dice w -> hand w c <> [] ->
  let exact := count (face b) (all_dice w) =? amount b in
  let losers := if exact then others c w else [c] in
  exists w',
    Game_call_spot_on w = (Ok exact, w')
    /\ Game_reset (lose_dice losers w) = (Ok tt, w')
    /\ game w' = with_current_bet None (game w)
    /\ (forall r, length (hand w' r) =
          if decide (r ∈ losers) then Nat.pred (length (hand w r))
          else length (hand w r))
    /\ (forall r, r ∈ losers -> length (hand w r) = S (length (hand w' r)))
    /\ (forall r, r ∈ losers <->
          if exact then r <> c /\ r ∈ players (game w) else r = c)
    /\ dice_in_play w' =
         dice_in_play w -
         (if exact then Z.of_nat (length (others c w))
          else if decide (c ∈ players (game w)) then 1 else 0).
Proof.
  intros Hb Hc Hnd Hok Hall Hdc exact losers.
  assert (Hmem : forall r, r ∈ losers <->
            if exact then r <> c /\ r ∈ players (game w) else r = c).
  { intros r. unfold losers. destruct exact;
      [apply elem_of_others | apply list_elem_of_singleton]. }
  assert (Hndl : NoDup losers).
  { unfold losers, others. destruct exact; [apply NoDup_filter; exact Hnd |].
    apply NoDup_singleton. }
  assert (Hdl : forall r, r ∈ losers -> hand w r <> []).
  { intros r Hr. apply Hmem in Hr. destruct exact; [apply Hall, Hr | subst; exact Hdc]. }
  destruct (lose_then_reset losers w Hok)
    as (w' & Hrun & Hg & _ & _ & _ & _ & _ & _ & Hlen & _).
  assert (Hsize : forall r, length (hand w' r) =
            if decide (r ∈ losers) then Nat.pred (length (hand w r))
            else length (hand w r)).
  { intros r. rewrite Hlen, hand_lose_dice by exact Hndl.
    destruct (decide (r ∈ losers)); [apply removelast_length_pred | reflexivity]. }
  assert (Hdrop : forall r, r ∈ losers -> length (hand w r) = S (length (hand w' r))).
  { intros r Hr. rewrite Hsize. destruct (decide (r ∈ losers)); [| contradiction].
    specialize (Hdl r Hr). destruct (hand w r); [contradiction | reflexivity]. }
  exists w'. split.
  { unfold Game_call_spot_on, Game_check_spot_on. unfold bind at 1.
    unfold get_game at 1, gets at 1. unfold bind at 1. unfold bind at 1.
    unfold gets at 1. rewrite Hb. unfold ret at 1. fold exact.
    unfold losers in Hrun. destruct exact.
    - unfold bind at 1.
      rewrite (spot_on_loop c (players (game w)) w Hc Hnd)
        by (intros r Hin Hne; apply Hall; exact Hin).
      fold (others c w). unfold bind. rewrite Hrun. reflexivity.
    - rewrite Hc. unfold on_player, bind.
      rewrite (Player_remove_die_ok c w Hdc).
      change (lose_die c w) with (lose_dice [c] w). rewrite Hrun. reflexivity. }
  split; [exact Hrun |]. split; [exact Hg |]. split; [exact Hsize |].
  split; [exact Hdrop |]. split; [exact Hmem |].
  rewrite (dice_in_play_after w w'
             (fun r => if decide (r ∈ losers) then 1%nat else 0%nat)).
  - f_equal. unfold losers in *. destruct exact.
    + transitivity (Z.of_nat (length (filter (fun r => r <> c) (players (game w)))));
        [| reflexivity].
      rewrite <- (others_sum c (players (game w))).
      apply (sum_ext (fun r => if decide (r ∈ others c w) then 1%nat else 0%nat)
                     (fun r => if decide (r <> c) then 1%nat else 0%nat)).
      intros r Hr.
      destruct (decide (r ∈ others c w)) as [Hin | Hout];
        destruct (decide (r <> c)) as [Hne | Heq]; try reflexivity; exfalso.
      * apply Hmem in Hin. tauto.
      * apply Hout, Hmem. tauto.
    + rewrite (sum_ext _ (fun r => if decide (r = c) then 1%nat else 0%nat)).
      * destruct (decide (c ∈ players (game w))) as [Hin | Hout];
          [apply indicator_sum_in; assumption | apply indicator_sum_out; assumption].
      * intros r _. destruct (decide (r ∈ [c])) as [Hin | Hout];
          destruct (decide (r = c)) as [Heq | Hne]; try reflexivity; exfalso.
        -- apply Hmem in Hin. contradiction.
        -- apply Hout, Hmem. exact Heq.
  - rewrite Hg. reflexivity.
  - intros r _. rewrite Hsize. destruct (decide (r ∈ losers)) as [Hr | _]; [| lia].
    specialize (Hdl r Hr). destruct (hand w r); [contradiction | simpl; lia].
Qed.

Lemma call_spot_on_resolves_witness :
  current_bet (game table3) = Some (mkBet 1 2)
  /\ current_player (game table3) = Some 0%nat
  /\ NoDup (players (game table3))
  /\ rotation_ok table3 /\ all_hold_dice table3 /\ hand table3 0%nat <> []
  /\ exists w',
       Game_call_spot_on table3 = (Ok true, w')
       /\ length (hand w' 0%nat) = 1%nat
       /\ length (hand w' 1%nat) = 0%nat
       /\ length (hand w' 2%nat) = 0%nat
       /\ dice_in_play w' = 1.
Proof.
  assert (Hnd : NoDup (players (game table3)))
    by (apply (bool_decide_unpack _); reflexivity).
  assert (Hok : rotation_ok table3) by (apply rotation_okb_sound; reflexivity).
  assert (Hall : all_hold_dice table3) by (apply all_hold_diceb_sound; reflexivity).
  assert (H0 : hand table3 0%nat <> []) by discriminate.
  repeat (split; [first [reflexivity | assumption] |]).
  destruct (call_spot_on_resolves table3 (mkBet 1 2) 0%nat
              eq_refl eq_refl Hnd Hok Hall H0)
    as (w' & Hrun & _ & _ & Hsize & _ & _ & Hdip).
  exists w'. split; [exact Hrun |].
  split; [exact (Hsize 0%nat) |]. split; [exact (Hsize 1%nat) |].
  split; [exact (Hsize 2%nat) |]. exact Hdip.
Defined.

(** ** All-or-nothing mutators *)

(** C9 as stated does not hold.  On an empty rotation [next_player] raises
    [IndexError] after it has overwritten [previous_player]; and
    [call_spot_on], meeting a player without dice in the middle of the
    rotation, raises [IndexError] after the players before that one have
    dropped a die, with the bet still on the table. *)
Lemma failing_mutators_leave_changes :
  (exists w', Game_next_player empty_table = (Raise IndexError, w')
     /\ previous_player (game empty_table) = None
     /\ previous_player (game w') = Some 0%nat)
  /\ (exists w', Game_call_spot_on table_with_loser = (Raise IndexError, w')
        /\ hand table_with_loser 0%nat = [2]
        /\ hand w' 0%nat = []
        /\ current_bet (game w') = Some (mkBet 1 2)).
Proof.
  split.
  - eexists. split; [reflexivity |]. split; reflexivity.
  - eexists. split; [reflexivity |]. repeat split; reflexivity.
Qed.

Lemma list_remove_perm (x : ref) (k : list ref) :
  x ∈ k -> exists k', list_remove x k = Some k' /\ k ≡ₚ x :: k'.
Proof.
  induction k as [| y k IH]; intros Hin; [inversion Hin |].
  simpl. destruct (Nat.eqb_spec y x) as [-> | Hne]; [eauto |].
  apply elem_of_cons in Hin. destruct Hin as [-> | Hin]; [contradiction |].
  destruct (IH Hin) as (k' & -> & Hperm). exists (y :: k'). split; [reflexivity |].
  rewrite Hperm. apply Permutation_swap.
Qed.

Lemma remove_loop (rest : list ref) : forall w,
  rest ⊆+ players (game w) ->
  exists w',
    for_each rest (fun lp =>
      let* g := get_game in
      match list_remove lp (players g) with
      | None => raise ValueError
      | Some l => update_game (with_players l)
      end) w = (Ok tt, w').
Proof.
  induction rest as [| x rest IH]; intros w Hsub; [eexists; reflexivity |].
  apply submseteq_cons_l in Hsub. destruct Hsub as (k' & Hperm & Hsub).
  destruct (list_remove_perm x (players (game w))) as (k & Hrem & Hperm').
  { rewrite Hperm. left. }
  assert (Hk : k' ≡ₚ k).
  { apply (Permutation_cons_inv (a := x)). rewrite <- Hperm, <- Hperm'. reflexivity. }
  destruct (IH (set_game (with_players k (game w)) w)) as (w' & Hrun).
  { simpl. rewrite <- Hk. exact Hsub. }
  exists w'. simpl for_each. unfold bind at 1. unfold bind at 1.
  unfold get_game, gets. rewrite Hrem. unfold update_game, modify. exact Hrun.
Qed.

Lemma remove_lost_players_succeeds (w : World) :
  exists l w', Game_remove_lost_players w = (Ok l, w').
Proof.
  unfold Game_remove_lost_players. unfold bind at 1. unfold gets at 1.
  cbv beta iota. set (lost := filter _ _).
  destruct (remove_loop lost w) as (w' & Hrun).
  { apply sublist_submseteq, sublist_filter. }
  exists lost, w'. unfold bind at 1. rewrite Hrun. reflexivity.
Qed.

Lemma bet_outcome (w : World) (b : Bet) :
  ((exists w', Game_first_bet b w = (Ok tt, w'))
   \/ (exists e, Game_first_bet b w = (Raise e, w)))
  /\ ((exists w', Game_place_bet b w = (Ok tt, w'))
      \/ (exists e, Game_place_bet b w = (Raise e, w))).
Proof.
  unfold Game_first_bet, Game_place_bet. run.
  destruct (dice_in_play w <? amount b); [split; right; eauto |].
  destruct ((dice_size (game w) <? face b) || (face b <? 1)); [split; right; eauto |].
  split; [left; eauto |].
  destruct (current_bet (game w)) as [cur |]; [| right; eauto].
  destruct ((amount cur <? amount b) || _); [left | right]; eauto.
Qed.

Lemma call_bluff_outcome (w : World) :
  rotation_ok w ->
  (exists r w', Game_call_bluff w = (Ok r, w'))
  \/ (exists e, Game_call_bluff w = (Raise e, w)).
Proof.
  intros Hok. unfold Game_call_bluff, Game_check_bet. do 3 step.
  destruct (current_bet (game w)) as [b |]; [| right; eexists; reflexivity].
  step.
  assert (Hstep : forall (o : option ref) (r : bool),
            (exists w', (on_player o Player_remove_die ;; Game_reset ;; ret r) w = (Ok r, w'))
            \/ (exists e, (on_player o Player_remove_die ;; Game_reset ;; ret r) w = (Raise e, w))).
  { intros [x |] r; [| right; eexists; reflexivity]. unfold on_player.
    destruct (hand w x) as [| v d] eqn:Hx.
    - right. exists IndexError.
      apply bind_fail, Player_remove_die_empty. exact Hx.
    - left. destruct (lose_then_reset [x] w Hok) as (w' & Hrun & _).
      exists w'.
      rewrite (bind_ok _ _ w (lose_die x w) tt)
        by (apply Player_remove_die_ok; rewrite Hx; discriminate).
      rewrite (bind_ok _ _ _ w' tt) by exact Hrun. reflexivity. }
  destruct (amount b <=? count (face b) (all_dice w)).
  - destruct (Hstep (current_player (game w)) false) as [(w' & H) | (e & H)];
      rewrite H; eauto.
  - destruct (Hstep (previous_player (game w)) true) as [(w' & H) | (e & H)];
      rewrite H; eauto.
Qed.

Lemma spot_on_loop_nobody (l : list ref) : forall w,
  current_player (game w) = None ->
  NoDup l ->
  (forall r, r ∈ l -> hand w r <> []) ->
  for_each l (fun p =>
    let* g := get_game in
    if is_not p (current_player g) then Player_remove_die p else ret tt) w
  = (Ok tt, lose_dice l w).
Proof.
  induction l as [| x l IH]; intros w Hc Hnd Hdice; [reflexivity |].
  apply NoDup_cons in Hnd. destruct Hnd as [Hx Hnd].
  simpl for_each. rewrite bind_assoc, bind_get_game. cbv beta. rewrite Hc. simpl is_not.
  rewrite (bind_ok _ _ w (lose_die x w) tt) by (apply Player_remove_die_ok, Hdice; left).
  simpl lose_dice. apply IH; [exact Hc | exact Hnd |].
  intros r Hin. rewrite hand_lose_die.
  destruct (decide (r = x)) as [-> | _]; [contradiction |].
  apply Hdice. right. exact Hin.
Qed.

Lemma call_spot_on_outcome (w : World) :
  NoDup (players (game w)) -> rotation_ok w -> all_hold_dice w ->
  (exists r w', Game_call_spot_on w = (Ok r, w'))
  \/ (exists e, Game_call_spot_on w = (Raise e, w)).
Proof.
  intros Hnd Hok Hall. unfold Game_call_spot_on, Game_check_spot_on. do 3 step.
  destruct (current_bet (game w)) as [b |]; [| right; eexists; reflexivity].
  step. destruct (count (face b) (all_dice w) =? amount b).
  - left. destruct (current_player (game w)) as [c |] eqn:Hc.
    + destruct (lose_then_reset (others c w) w Hok) as (w' & Hrun & _).
      exists true, w'.
      rewrite (bind_ok _ _ w (lose_dice (others c w) w) tt).
      * rewrite (bind_ok _ _ _ w' tt) by exact Hrun. reflexivity.
      * apply spot_on_loop; [exact Hc | exact Hnd |].
        intros r Hin _. apply Hall. exact Hin.
    + destruct (lose_then_reset (players (game w)) w Hok) as (w' & Hrun & _).
      exists true, w'.
      rewrite (bind_ok _ _ w (lose_dice (players (game w)) w) tt).
      * rewrite (bind_ok _ _ _ w' tt) by exact Hrun. reflexivity.
      * apply spot_on_loop_nobody; [exact Hc | exact Hnd | exact Hall].
  - destruct (current_player (game w)) as [x |]; [| right; eexists; reflexivity].
    unfold on_player. destruct (hand w x) as [| v d] eqn:Hx.
    + right. exists IndexError. apply bind_fail, Player_remove_die_empty. exact Hx.
    + left. destruct (lose_then_reset [x] w Hok) as (w' & Hrun & _).
      exists false, w'.
      rewrite (bind_ok _ _ w (lose_die x w) tt)
        by (apply Player_remove_die_ok; rewrite Hx; discriminate).
      rewrite (bind_ok _ _ _ w' tt) by exact Hrun. reflexivity.
Qed.

Lemma setup_succeeds (w : World) :
  players (game w) <> [] -> rotation_ok w ->
  exists w', Game_setup w = (Ok tt, w').
Proof.
  intros Hne Hok. unfold Game_setup. step.
  destruct (roll_all_spec (players (game w)) w) as (w1 & Hrun & (Hg & _) & _).
  { intros r Hin. apply player_ok_rollable, Hok, Hin. }
  rewrite (bind_ok _ _ w w1 tt) by exact Hrun. do 3 step.
  destruct (players (game w)) as [| p rest] eqn:Hp; [contradiction |].
  eexists. erewrite bind_ok; [reflexivity |].
  apply Game_next_player_cons. simpl. rewrite Hg. exact Hp.
Qed.

Lemma void_outcome {A} (m : M A) (w : World) :
  (exists a w', m w = (Ok a, w')) \/ (exists e, m w = (Raise e, w)) ->
  (exists w', void m w = (Ok tt, w')) \/ (exists e, void m w = (Raise e, w)).
Proof.
  unfold void, bind. intros [(a & w' & ->) | (e & ->)]; [left | right]; eauto.
Qed.

(** C9, amended: in the states a mutator [admits], a call either succeeds
    or raises and leaves the whole state (players, hands, bet, turn pointers
    and everything else) exactly as it was.  [first_bet], [place_bet] and
    [remove_lost_players] are covered in every state; [next_player] and [setup] need a
    non-empty rotation, [call_bluff] dice that show faces of their players,
    [call_spot_on] in addition distinct players who all hold dice. *)
Theorem mutators_all_or_nothing (m : mutator) (w : World) :
  admits m w ->
  (exists w', run_mutator m w = (Ok tt, w'))
  \/ (exists e, run_mutator m w = (Raise e, w)).
Proof.
  destruct m; simpl; intros Hadm.
  - left. destruct Hadm as [Hne Hok]. apply setup_succeeds; assumption.
  - left. destruct (players (game w)) as [| p rest] eqn:Hp; [contradiction |].
    eexists. unfold void. erewrite bind_ok; [reflexivity |].
    apply Game_next_player_cons. exact Hp.
  - apply (proj1 (bet_outcome w b)).
  - apply (proj2 (bet_outcome w b)).
  - apply void_outcome, call_bluff_outcome. exact Hadm.
  - destruct Hadm as (Hnd & Hok & Hall).
    apply void_outcome, call_spot_on_outcome; assumption.
  - apply void_outcome. left. apply remove_lost_players_succeeds.
Qed.

Lemma mutators_all_or_nothing_witness :
  admits CallSpotOn table3
  /\ ((exists w', run_mutator CallSpotOn table3 = (Ok tt, w'))
      \/ (exists e, run_mutator CallSpotOn table3 = (Raise e, table3))).
Proof.
  assert (Hadm : admits CallSpotOn table3).
  { split; [apply (bool_decide_unpack _); reflexivity |].
    split; [apply rotation_okb_sound | apply all_hold_diceb_sound]; reflexivity. }
  split; [exact Hadm | exact (mutators_all_or_nothing CallSpotOn table3 Hadm)].
Defined.

(** ** The probability methods *)

Lemma spot_on_equation_run (w : World) (f k n : Z) (kd : list_ref) :
  Game_spot_on_equation f k n kd w =
    (binomial_mass_float (dice_size (game w))
       (n - Z.of_nat (length (read_list kd w))) (k - count f (read_list kd w)), w).
Proof.
  unfold Game_spot_on_equation, binomial_mass_float. do 3 step.
  unfold bind, lift.
  destruct (int_truediv 1 (dice_size (game w))) as [x | e]; [| reflexivity].
  destruct (fpow x _) as [a | e]; [| reflexivity].
  destruct (int_truediv (dice_size (game w) - 1) (dice_size (game w))) as [y | e];
    [| reflexivity].
  destruct (fpow y _) as [b | e]; reflexivity.
Qed.

Lemma list_comp_pure {A B} (f : A -> M B) (g : A -> result B) (w : World) (l : list A) :
  (forall x, f x w = (g x, w)) ->
  list_comp l f w =
    (match collect (map g l) with Ok ys => Ok ys | Raise e => Raise e end, w).
Proof.
  intros Hf. induction l as [| x l IH]; [reflexivity |].
  simpl. unfold bind at 1. rewrite Hf. destruct (g x) as [y | e]; [| reflexivity].
  unfold bind at 1. rewrite IH.
  destruct (collect (map g l)); reflexivity.
Qed.

Lemma bet_equation_run_any (w : World) (f k n : Z) (kd : list_ref) :
  Game_bet_equation f k n kd w =
    (let m := n - Z.of_nat (length (read_list kd w)) in
     let q := k - count f (read_list kd w) in
     match collect (map (fun i =>
               binomial_mass_float (dice_size (game w))
                 (m - Z.of_nat (length (spot_on_default w)))
                 (i - count f (spot_on_default w)))
             (range q (m + 1))) with
     | Ok terms => Ok (py_sum terms)
     | Raise e => Raise e
     end, w).
Proof.
  unfold Game_bet_equation. do 2 step. cbv zeta.
  set (m := n - Z.of_nat (length (read_list kd w))).
  set (q := k - count f (read_list kd w)).
  unfold bind.
  rewrite (list_comp_pure _ (fun i =>
             binomial_mass_float (dice_size (game w))
               (m - Z.of_nat (length (spot_on_default w)))
               (i - count f (spot_on_default w))) w).
  - destruct (collect _); reflexivity.
  - intros i. rewrite spot_on_equation_run. reflexivity.
Qed.

Lemma bet_equation_run (w : World) (f k n : Z) (kd : list_ref) :
  spot_on_default w = [] ->
  Game_bet_equation f k n kd w =
    (at_least_float (dice_size (game w))
       (n - Z.of_nat (length (read_list kd w))) (k - count f (read_list kd w)), w).
Proof.
  intros Hdef. rewrite bet_equation_run_any. cbv zeta. rewrite Hdef.
  unfold at_least_float, count. simpl. f_equal.
  rewrite Z.sub_0_r.
  erewrite map_ext; [reflexivity |]. intros i. simpl. rewrite Z.sub_0_r. reflexivity.
Qed.

(** *** Binomial coefficients *)



(** *** Powers that stay within the range of a double *)










(** *** The value of the mass *)








(** *** The sum of [bet_equation] *)






(** ** Purity of the probability methods *)

(** C10: [spot_on_equation] and [bet_equation] leave the whole state as it
    is: the game, every hand, the two default-argument lists and the
    callers' lists, hence whichever list was passed as [known_dice]; and
    their result depends on the dice size, the arguments and the contents of
    the lists they read only. *)
Theorem probability_queries_are_pure (w : World) (f k n : Z) (kd : list_ref) :
  snd (Game_spot_on_equation f k n kd w) = w
  /\ snd (Game_bet_equation f k n kd w) = w
  /\ (forall l, read_list l (snd (Game_spot_on_equation f k n kd w)) = read_list l w)
  /\ (forall l, read_list l (snd (Game_bet_equation f k n kd w)) = read_list l w)
  /\ (forall w2,
        dice_size (game w2) = dice_size (game w) ->
        read_list kd w2 = read_list kd w ->
        fst (Game_spot_on_equation f k n kd w2) = fst (Game_spot_on_equation f k n kd w))
  /\ (forall w2,
        dice_size (game w2) = dice_size (game w) ->
        read_list kd w2 = read_list kd w ->
        spot_on_default w2 = spot_on_default w ->
        fst (Game_bet_equation f k n kd w2) = fst (Game_bet_equation f k n kd w)).
Proof.
  split; [rewrite spot_on_equation_run; reflexivity |].
  split; [rewrite bet_equation_run_any; reflexivity |].
  split; [intros l; rewrite spot_on_equation_run; reflexivity |].
  split; [intros l; rewrite bet_equation_run_any; reflexivity |].
  split.
  - intros w2 Hd Hl. rewrite !spot_on_equation_run. simpl. rewrite Hd, Hl. reflexivity.
  - intros w2 Hd Hl Hdef. rewrite !bet_equation_run_any. simpl.
    rewrite Hd, Hl, Hdef. reflexivity.
Qed.

(** ** What no call writes *)

(** The hypothesis of the theorem on [bet_equation], that the default list
    of [spot_on_equation] is empty, holds throughout: the list is created
    empty and no method writes to it. *)

Lemma untouched_refl (w : World) : untouched w w.
Proof. repeat split. Qed.

Lemma untouched_trans (w1 w2 w3 : World) :
  untouched w1 w2 -> untouched w2 w3 -> untouched w1 w3.
Proof. unfold untouched. intuition congruence. Qed.

Lemma leaves_bind {A B} (m : M A) (k : A -> M B) :
  leaves_untouched m -> (forall a, leaves_untouched (k a)) ->
  leaves_untouched (bind m k).
Proof.
  intros Hm Hk w. unfold bind. specialize (Hm w).
  destruct (m w) as [[a | e] w1]; simpl in *; [| exact Hm].
  apply (untouched_trans w w1); [exact Hm | apply Hk].
Qed.

Lemma leaves_ret {A} (a : A) : leaves_untouched (ret a).
Proof. intros w. apply untouched_refl. Qed.

Lemma leaves_raise {A} (e : exn) : leaves_untouched (@raise A e).
Proof. intros w. apply untouched_refl. Qed.

Lemma leaves_gets {A} (f : World -> A) : leaves_untouched (gets f).
Proof. intros w. apply untouched_refl. Qed.

Lemma leaves_lift {A} (r : result A) : leaves_untouched (lift r).
Proof. intros w. apply untouched_refl. Qed.

Lemma leaves_modify (f : World -> World) :
  (forall w, untouched w (f w)) -> leaves_untouched (modify f).
Proof. intros Hf w. apply Hf. Qed.

Lemma leaves_randint (a b : Z) : leaves_untouched (randint a b).
Proof. intros w. unfold randint. destruct (b <? a); repeat split. Qed.

Lemma leaves_for_each {A} (l : list A) (body : A -> M unit) :
  (forall x, leaves_untouched (body x)) -> leaves_untouched (for_each l body).
Proof.
  intros Hb. induction l as [| x l IH]; [apply leaves_ret |].
  simpl. apply leaves_bind; [apply Hb | intros _; exact IH].
Qed.

Lemma leaves_list_comp {A B} (l : list A) (f : A -> M B) :
  (forall x, leaves_untouched (f x)) -> leaves_untouched (list_comp l f).
Proof.
  intros Hf. induction l as [| x l IH]; [apply leaves_ret |].
  simpl. apply leaves_bind; [apply Hf | intros y].
  apply leaves_bind; [exact IH | intros ys; apply leaves_ret].
Qed.

Ltac leaves :=
  repeat match goal with
    | |- leaves_untouched (bind _ _) => apply leaves_bind; [| intros ?]
    | |- leaves_untouched (for_each _ _) => apply leaves_for_each; intros ?
    | |- leaves_untouched (list_comp _ _) => apply leaves_list_comp; intros ?
    | |- leaves_untouched (ret _) => apply leaves_ret
    | |- leaves_untouched (raise _) => apply leaves_raise
    | |- leaves_untouched (gets _) => apply leaves_gets
    | |- leaves_untouched (lift _) => apply leaves_lift
    | |- leaves_untouched (randint _ _) => apply leaves_randint
    | |- leaves_untouched (modify _) => apply leaves_modify; intros ?; repeat split
    | |- leaves_untouched (match ?x with _ => _ end) => destruct x
    end.

Lemma leaves_put_dice (r : ref) (d : list Z) : leaves_untouched (put_dice r d).
Proof. unfold put_dice. leaves. Qed.

Lemma leaves_update_game (f : Game -> Game) : leaves_untouched (update_game f).
Proof. unfold update_game. leaves. Qed.

Lemma leaves_Player_roll (r : ref) : leaves_untouched (Player_roll r).
Proof. unfold Player_roll, get_player. leaves; apply leaves_put_dice. Qed.

Lemma leaves_Player_remove_die (r : ref) : leaves_untouched (Player_remove_die r).
Proof. unfold Player_remove_die, get_player. leaves. apply leaves_put_dice. Qed.

Lemma leaves_Player_init (name : string) (n_dice n_faces : Z) :
  leaves_untouched (Player_init name n_dice n_faces).
Proof. unfold Player_init, get_player. leaves. apply leaves_put_dice. Qed.

Lemma leaves_Game_init (names : list string) (n_dice n_faces : Z) :
  leaves_untouched (Game_init names n_dice n_faces).
Proof.
  unfold Game_init, get_game.
  leaves; first [apply leaves_update_game | apply leaves_Player_init].
Qed.

Lemma leaves_Game_reset : leaves_untouched Game_reset.
Proof.
  unfold Game_reset, get_game.
  leaves; first [apply leaves_update_game | apply leaves_Player_roll].
Qed.

Lemma leaves_Game_next_player : leaves_untouched Game_next_player.
Proof. unfold Game_next_player, get_game. leaves; apply leaves_update_game. Qed.

(** Every mutator, whether it succeeds or raises, and both probability
    methods leave the default-argument lists as they are. *)
Lemma mutators_leave_defaults (m : mutator) : leaves_untouched (run_mutator m).
Proof.
  destruct m; simpl;
    unfold void, Game_setup, Game_first_bet, Game_place_bet, Game_call_bluff,
      Game_call_spot_on, Game_remove_lost_players, Game_check_bet,
      Game_check_spot_on, on_player, get_game;
    leaves;
    first [ apply leaves_update_game | apply leaves_Player_roll
          | apply leaves_Player_remove_die | apply leaves_Game_reset
          | apply leaves_Game_next_player ].
Qed.

Lemma probability_methods_leave_defaults (f k n : Z) (kd : list_ref) :
  leaves_untouched (Game_spot_on_equation f k n kd)
  /\ leaves_untouched (Game_bet_equation f k n kd).
Proof.
  assert (H : forall i m l, leaves_untouched (Game_spot_on_equation f i m l))
    by (intros i m l; unfold Game_spot_on_equation, get_game; leaves).
  split; [apply H |]. unfold Game_bet_equation. leaves. apply H.
Qed.

(** ** Construction *)

(** The preconditions used above are those of a constructed game: with at
    least one face, [Game.__init__] succeeds and yields a rotation of
    distinct players whose dice show faces of theirs, each holding
    [dice_count] dice. *)

Lemma Player_init_spec (name : string) (n_dice n_faces : Z) (w : World) :
  1 <= n_faces ->
  exists w' d,
    Player_init name n_dice n_faces w = (Ok (pid_counter w), w')
    /\ game w' = game w
    /\ pid_counter w' = S (pid_counter w)
    /\ deref w' (pid_counter w) = mkPlayer (pid_counter w) name n_faces d
    /\ length d = Z.to_nat n_dice
    /\ Forall (fun v => 1 <= v <= n_faces) d
    /\ (forall r, r <> pid_counter w -> deref w' r = deref w r).
Proof.
  intros Hf. unfold Player_init. step.
  set (self := pid_counter w).
  set (w0 := set_heap (<[self := mkPlayer self name n_faces []]> (heap (set_pid_counter (S self) w)))
               (set_pid_counter (S self) w)).
  assert (H0 : deref w0 self = mkPlayer self name n_faces [])
    by (unfold w0; apply deref_put_eq).
  destruct (draw_loop self (seq 0 (Z.to_nat n_dice)) w0)
    as (w' & d & Hrun & (Hg & Hp & _) & Hr & Hn & Hlen & Hall).
  { right. rewrite H0. exact Hf. }
  exists w', d. split.
  { unfold bind at 1, modify at 1. unfold bind at 1, modify at 1. fold w0.
    rewrite (bind_ok _ _ w0 w' tt) by exact Hrun. reflexivity. }
  split; [rewrite Hg; reflexivity |]. split; [rewrite Hp; reflexivity |].
  split; [rewrite Hr; unfold hand; rewrite H0; reflexivity |].
  split; [rewrite Hlen; apply length_seq |].
  split; [rewrite H0 in Hall; exact Hall |].
  intros r Hne. rewrite Hn by exact Hne. unfold w0. rewrite deref_put_ne by exact Hne.
  reflexivity.
Qed.

Lemma init_loop (names : list string) : forall w,
  1 <= dice_size (game w) ->
  exists w',
    for_each names (fun name =>
      let* g := get_game in
      let* p := Player_init name (dice_count g) (dice_size g) in
      update_game (fun g => with_players (players g ++ [p]) g)) w = (Ok tt, w')
    /\ game w' = with_players (players (game w) ++ seq (pid_counter w) (length names)) (game w)
    /\ (forall r, (r < pid_counter w)%nat -> deref w' r = deref w r)
    /\ (forall r, r ∈ seq (pid_counter w) (length names) ->
          player_ok (deref w' r)
          /\ length (hand w' r) = Z.to_nat (dice_count (game w))).
Proof.
  induction names as [| name names IH]; intros w Hf.
  - exists w. split; [reflexivity |]. simpl. rewrite app_nil_r.
    split; [destruct (game w); reflexivity |].
    split; [reflexivity |]. intros r Hr. inversion Hr.
  - destruct (Player_init_spec name (dice_count (game w)) (dice_size (game w)) w Hf)
      as (w1 & d & Hrun1 & Hg1 & Hp1 & Hd1 & Hlen1 & Hall1 & Hn1).
    set (w2 := set_game (with_players (players (game w1) ++ [pid_counter w]) (game w1)) w1).
    destruct (IH w2) as (w' & Hrun & Hg & Hold & Hnew).
    { simpl. rewrite Hg1. exact Hf. }
    exists w'. split.
    { simpl for_each. rewrite bind_assoc, bind_get_game. cbv beta.
      rewrite bind_assoc. rewrite (bind_ok _ _ w w1 (pid_counter w)) by exact Hrun1.
      rewrite bind_update_game. fold w2. exact Hrun. }
    split.
    { rewrite Hg. simpl. rewrite Hg1, Hp1, <- app_assoc. reflexivity. }
    split.
    { intros r Hr. rewrite Hold by (simpl; lia). apply Hn1. lia. }
    intros r Hr. simpl in Hr. apply elem_of_cons in Hr. destruct Hr as [-> | Hr].
    + unfold player_ok, hand. rewrite Hold by (simpl; lia). unfold w2.
      change (deref (set_game _ w1) (pid_counter w)) with (deref w1 (pid_counter w)).
      rewrite Hd1. simpl. split; [exact Hall1 | exact Hlen1].
    + replace (seq (S (pid_counter w)) (length names))
        with (seq (pid_counter w2) (length names)) in Hr by (simpl; rewrite Hp1; reflexivity).
      destruct (Hnew r Hr) as [Hok Hlen]. split; [exact Hok |].
      rewrite Hlen. simpl. rewrite Hg1. reflexivity.
Qed.

Lemma Game_init_well_formed (names : list string) (n_dice n_faces : Z) (w : World) :
  1 <= n_faces ->
  exists w',
    Game_init names n_dice n_faces w = (Ok tt, w')
    /\ game w' = mkGame n_dice n_faces (seq (pid_counter w) (length names)) None None None
    /\ NoDup (players (game w'))
    /\ rotation_ok w'
    /\ (1 <= n_dice -> all_hold_dice w')
    /\ spot_on_default w' = spot_on_default w.
Proof.
  intros Hf. unfold Game_init. rewrite bind_update_game.
  set (w0 := set_game (mkGame n_dice n_faces [] None None None) w).
  destruct (init_loop names w0 Hf) as (w' & Hrun & Hg & _ & Hnew).
  exists w'. split; [exact Hrun |]. split; [rewrite Hg; reflexivity |].
  rewrite Hg. simpl.
  split; [apply NoDup_ListNoDup, List.seq_NoDup |].
  split; [intros r Hr; rewrite Hg in Hr; apply (Hnew r Hr) |].
  split.
  - intros Hn r Hr Hnil. rewrite Hg in Hr. destruct (Hnew r Hr) as [_ Hlen].
    rewrite Hnil in Hlen. simpl in Hlen. lia.
  - pose proof (leaves_Game_init names n_dice n_faces w) as Hl.
    unfold Game_init in Hl. rewrite bind_update_game in Hl. fold w0 in Hl.
    rewrite Hrun in Hl. apply Hl.
Qed.

(** * Further properties of the code *)

(** ** The order on bets *)

Lemma tuple_lt_spec (a b : Bet) :
  tuple_lt (amount a, face a) (amount b, face b) = true
  <-> amount a < amount b \/ (amount a = amount b /\ face a < face b).
Proof.
  unfold tuple_lt. simpl. destruct (Z.eqb_spec (amount a) (amount b)) as [E | E].
  - rewrite Z.ltb_lt. lia.
  - rewrite Z.ltb_lt. lia.
Qed.

Lemma tuple_lt_false (a b : Bet) :
  tuple_lt (amount a, face a) (amount b, face b) = false
  <-> amount b < amount a \/ (amount a = amount b /\ face b <= face a).
Proof.
  rewrite <- not_true_iff_false, tuple_lt_spec. lia.
Qed.

(** X1: [Bet.__lt__] is a strict total order on bets: no bet is below
    itself, the relation is transitive and asymmetric, and two bets neither
    of which is below the other have the same amount and face.  Against
    [None] it answers [None]. *)
Theorem Bet_lt_strict_total_order (a b c : Bet) :
  Bet_lt a (Some a) = Some false
  /\ (Bet_lt a (Some b) = Some true -> Bet_lt b (Some c) = Some true ->
      Bet_lt a (Some c) = Some true)
  /\ (Bet_lt a (Some b) = Some true -> Bet_lt b (Some a) = Some false)
  /\ (Bet_lt a (Some b) = Some false -> Bet_lt b (Some a) = Some false -> a = b)
  /\ Bet_lt a None = None.
Proof.
  unfold Bet_lt.
  split; [f_equal; apply tuple_lt_false; lia |].
  split.
  { intros H1 H2. f_equal. injection H1 as H1. injection H2 as H2.
    apply tuple_lt_spec in H1. apply tuple_lt_spec in H2. apply tuple_lt_spec. lia. }
  split.
  { intros H1. f_equal. injection H1 as H1.
    apply tuple_lt_spec in H1. apply tuple_lt_false. lia. }
  split; [| reflexivity].
  intros H1 H2. injection H1 as H1. injection H2 as H2.
  apply tuple_lt_false in H1. apply tuple_lt_false in H2.
  destruct a, b. simpl in *. f_equal; lia.
Qed.

(** X2: the test [bet > current_bet] of the interface, which goes through
    the [__gt__] that [@total_ordering] derives, holds exactly when the
    current bet is below the new one; so a bet that passes it and the range
    checks is taken by [place_bet], and one that fails it is refused as not
    better.  Against a missing bet the test is true. *)
Theorem Bet_gt_decides_place_bet (w : World) (cur b : Bet) :
  passes_range_checks w b ->
  current_bet (game w) = Some cur ->
  (Bet_gt b (Some cur) = true <-> Bet_lt cur (Some b) = Some true)
  /\ (Bet_gt b (Some cur) = true ->
      Game_place_bet b w = (Ok tt, set_game (with_current_bet (Some b) (game w)) w))
  /\ (Bet_gt b (Some cur) = false ->
      Game_place_bet b w = (Raise (GameError NotBetterThanCurrent), w))
  /\ Bet_gt b None = true.
Proof.
  intros Hr Hc.
  assert (Hiff : Bet_gt b (Some cur) = tuple_lt (amount cur, face cur) (amount b, face b)).
  { unfold Bet_gt, Bet_lt, Bet_eq. simpl default.
    destruct (tuple_lt (amount cur, face cur) (amount b, face b)) eqn:E1.
    - apply tuple_lt_spec in E1.
      assert (E2 : tuple_lt (amount b, face b) (amount cur, face cur) = false)
        by (apply tuple_lt_false; lia).
      rewrite E2. simpl.
      destruct (Z.eqb_spec (amount b) (amount cur)); simpl; [| reflexivity].
      destruct (Z.eqb_spec (face b) (face cur)); [lia | reflexivity].
    - apply tuple_lt_false in E1.
      destruct (tuple_lt (amount b, face b) (amount cur, face cur)) eqn:E2;
        [reflexivity |].
      apply tuple_lt_false in E2. simpl.
      destruct (Z.eqb_spec (amount b) (amount cur)); simpl; [| lia].
      destruct (Z.eqb_spec (face b) (face cur)); [reflexivity | lia]. }
  rewrite (place_bet_decides w cur b Hr Hc), Hiff. unfold Bet_lt.
  split; [split; congruence |].
  split; [intros ->; reflexivity |].
  split; [intros ->; reflexivity | reflexivity].
Qed.

Lemma Bet_gt_decides_place_bet_witness :
  passes_range_checks table3 (mkBet 2 1)
  /\ current_bet (game table3) = Some (mkBet 1 2)
  /\ Bet_gt (mkBet 2 1) (Some (mkBet 1 2)) = true
  /\ Game_place_bet (mkBet 2 1) table3
     = (Ok tt, set_game (with_current_bet (Some (mkBet 2 1)) (game table3)) table3).
Proof.
  assert (Hr : passes_range_checks table3 (mkBet 2 1)) by (vm_compute; intuition discriminate).
  split; [exact Hr |]. split; [reflexivity |]. split; [reflexivity |].
  exact (proj1 (proj2 (Bet_gt_decides_place_bet table3 (mkBet 1 2) (mkBet 2 1) Hr eq_refl))
           eq_refl).
Defined.

(** ** Bets: which error, and what a bet is compared with *)

(** X3: [first_bet] never looks at the bet on the table: whatever the
    current bet is, even a higher one, a bet within the two ranges replaces
    it.  A bet outside them is refused with the state unchanged, and when both
    the amount and the face are out of range it is the amount that is
    reported. *)
Theorem first_bet_ignores_current_bet (w : World) (b : Bet) (o : option Bet) :
  let w_o := set_game (with_current_bet o (game w)) w in
  (passes_range_checks w b ->
   Game_first_bet b w_o = (Ok tt, set_game (with_current_bet (Some b) (game w)) w))
  /\ (dice_in_play w < amount b ->
      Game_first_bet b w_o = (Raise (GameError (MoreDiceThanOnTable (amount b))), w_o))
  /\ (amount b <= dice_in_play w -> ~ 1 <= face b <= dice_size (game w) ->
      Game_first_bet b w_o = (Raise (GameError (InvalidDieFace (face b))), w_o)).
Proof.
  intros w_o.
  assert (Hd : dice_in_play w_o = dice_in_play w) by reflexivity.
  assert (Hs : dice_size (game w_o) = dice_size (game w)) by reflexivity.
  split; [| split].
  - intros Hr. exact (first_bet_accepted w_o b Hr).
  - intros Ha. unfold Game_first_bet. rewrite bind_gets, Hd.
    destruct (Z.ltb_spec (dice_in_play w) (amount b)); [reflexivity | lia].
  - intros Ha Hf. unfold Game_first_bet. rewrite bind_gets, Hd.
    destruct (Z.ltb_spec (dice_in_play w) (amount b)); [lia |].
    rewrite bind_get_game, Hs.
    destruct (Z.ltb_spec (dice_size (game w)) (face b)); [reflexivity |].
    destruct (Z.ltb_spec (face b) 1); [reflexivity | lia].
Qed.

(** X4: [place_bet] never succeeds on a table without a bet: a bet within
    the ranges stops with [AttributeError] (reading the amount of [None]),
    one outside them with [GameError]; either way the state is unchanged. *)
Theorem place_bet_needs_current_bet (w : World) (b : Bet) :
  current_bet (game w) = None ->
  (passes_range_checks w b -> Game_place_bet b w = (Raise AttributeError, w))
  /\ (~ passes_range_checks w b ->
      exists v, Game_place_bet b w = (Raise (GameError v), w))
  /\ (forall w', Game_place_bet b w <> (Ok tt, w')).
Proof.
  intros Hc.
  assert (H1 : passes_range_checks w b -> Game_place_bet b w = (Raise AttributeError, w)).
  { intros [Ha [Hf Hg]]. unfold Game_place_bet. rewrite bind_gets.
    destruct (Z.ltb_spec (dice_in_play w) (amount b)); [lia |].
    rewrite bind_get_game.
    destruct (Z.ltb_spec (dice_size (game w)) (face b)); [lia |].
    destruct (Z.ltb_spec (face b) 1); [lia |]. simpl. rewrite Hc. reflexivity. }
  split; [exact H1 |]. split; [apply place_bet_range_rejected |].
  intros w' Hrun.
  destruct (Z.le_gt_cases (amount b) (dice_in_play w)) as [Ha | Ha];
    [destruct (Z.le_gt_cases 1 (face b)) as [Hf | Hf];
       [destruct (Z.le_gt_cases (face b) (dice_size (game w))) as [Hg | Hg] |] |].
  - rewrite H1 in Hrun by (unfold passes_range_checks; lia). discriminate.
  - destruct (place_bet_range_rejected w b) as (v & Hv);
      [unfold passes_range_checks; lia | congruence].
  - destruct (place_bet_range_rejected w b) as (v & Hv);
      [unfold passes_range_checks; lia | congruence].
  - destruct (place_bet_range_rejected w b) as (v & Hv);
      [unfold passes_range_checks; lia | congruence].
Qed.

Lemma place_bet_needs_current_bet_witness :
  current_bet (game table3_no_bet) = None
  /\ passes_range_checks table3_no_bet (mkBet 1 2)
  /\ Game_place_bet (mkBet 1 2) table3_no_bet = (Raise AttributeError, table3_no_bet).
Proof.
  assert (Hr : passes_range_checks table3_no_bet (mkBet 1 2))
    by (vm_compute; intuition discriminate).
  split; [reflexivity |]. split; [exact Hr |].
  exact (proj1 (place_bet_needs_current_bet table3_no_bet (mkBet 1 2) eq_refl) Hr).
Defined.

(** ** Rolling and losing dice, player by player *)

Lemma draw_loop_in_order {A} (r : ref) (l : list A) : forall w,
  l = [] \/ 1 <= player_dice_size (deref w r) ->
  exists w',
    for_each l (fun _ =>
      let* p := get_player r in
      let* v := randint 1 (player_dice_size p) in
      put_dice r (dice p ++ [v])) w = (Ok tt, w')
    /\ same_table w w'
    /\ rng_pos w' = (rng_pos w + length l)%nat
    /\ deref w' r = with_dice (hand w r ++ draws w (player_dice_size (deref w r)) (length l))
                              (deref w r)
    /\ (forall r', r' <> r -> deref w' r' = deref w r').
Proof.
  induction l as [| x l IH]; intros w Hds.
  - exists w. simpl. unfold ret, hand, draws. simpl. rewrite app_nil_r, with_dice_id.
    repeat split; auto.
  - destruct Hds as [Hnil | Hds]; [discriminate |].
    destruct (randint_in_range 1 (player_dice_size (deref w r)) w Hds) as (v & Hv & _).
    assert (Hval : v = die_at w (player_dice_size (deref w r)) (rng_pos w)).
    { unfold randint in Hv. destruct (player_dice_size (deref w r) <? 1); [discriminate |].
      injection Hv as <-. reflexivity. }
    set (w0 := set_rng_pos (S (rng_pos w)) w) in *.
    set (w1 := set_heap (<[r := with_dice (dice (deref w r) ++ [v]) (deref w0 r)]> (heap w0)) w0).
    assert (Hr1 : deref w1 r = with_dice (hand w r ++ [v]) (deref w r))
      by (unfold w1; rewrite deref_put_eq; reflexivity).
    assert (Hn1 : forall r', r' <> r -> deref w1 r' = deref w r')
      by (intros r' Hne; unfold w1; rewrite deref_put_ne by exact Hne; reflexivity).
    destruct (IH w1) as (w' & Hrun & Hst & Hpos & Hr & Hn).
    { right. rewrite Hr1. simpl. exact Hds. }
    exists w'. split.
    { simpl. unfold bind at 1. unfold bind at 1. unfold get_player, gets.
      unfold bind at 1. rewrite Hv. unfold put_dice, modify. fold w0. fold w1.
      exact Hrun. }
    split; [apply (same_table_trans w w1 w'); [repeat split | exact Hst] |].
    split; [rewrite Hpos; simpl; lia |].
    split.
    { rewrite Hr. unfold hand. rewrite Hr1. unfold with_dice. simpl. f_equal.
      rewrite <- app_assoc. f_equal. unfold draws. simpl. rewrite Hval. reflexivity. }
    intros r' Hne. rewrite Hn by exact Hne. apply Hn1. exact Hne.
Qed.

Lemma draws_in_range (w : World) (faces : Z) (n : nat) :
  1 <= faces -> Forall (fun v => 1 <= v <= faces) (draws w faces n).
Proof.
  intros Hf. unfold draws. apply List.Forall_forall. intros v Hv.
  apply in_map_iff in Hv. destruct Hv as (k & <- & _). unfold die_at.
  pose proof (Z.mod_pos_bound (entropy w k) (faces - 1 + 1)). lia.
Qed.

Lemma Player_roll_in_order (w : World) (r : ref) :
  rollable w r ->
  exists w',
    Player_roll r w = (Ok tt, w')
    /\ hand w' r = draws w (player_dice_size (deref w r)) (length (hand w r))
    /\ length (hand w' r) = length (hand w r)
    /\ player_ok (deref w' r)
    /\ deref w' r = with_dice (hand w' r) (deref w r)
    /\ rng_pos w' = (rng_pos w + length (hand w r))%nat
    /\ (forall r', r' <> r -> deref w' r' = deref w r')
    /\ same_table w w'.
Proof.
  intros Hroll. unfold Player_roll.
  set (w0 := set_heap (<[r := with_dice [] (deref w r)]> (heap w)) w).
  assert (Hr0 : deref w0 r = with_dice [] (deref w r)) by (unfold w0; apply deref_put_eq).
  destruct (draw_loop_in_order r (seq 0 (length (dice (deref w r)))) w0)
    as (w' & Hrun & Hst & Hpos & Hr & Hn).
  { destruct Hroll as [Hnil | Hds].
    - left. unfold hand in Hnil. rewrite Hnil. reflexivity.
    - right. rewrite Hr0. exact Hds. }
  rewrite length_seq in *. unfold hand at 1 in Hr. rewrite Hr0 in Hr. simpl in Hr.
  assert (Hhand : hand w' r = draws w (player_dice_size (deref w r)) (length (hand w r))).
  { unfold hand at 1. rewrite Hr. reflexivity. }
  exists w'. split.
  { unfold bind at 1. unfold get_player, gets. unfold bind at 1.
    unfold put_dice, modify. fold w0. exact Hrun. }
  split; [exact Hhand |].
  split; [rewrite Hhand; unfold draws; rewrite length_map, length_seq; reflexivity |].
  split.
  { unfold player_ok. fold (hand w' r). rewrite Hhand, Hr. simpl.
    destruct Hroll as [Hnil | Hds]; [rewrite Hnil; constructor |].
    apply draws_in_range. exact Hds. }
  split; [rewrite Hhand, Hr; reflexivity |].
  split; [exact Hpos |].
  split.
  { intros r' Hne. rewrite Hn by exact Hne. unfold w0. apply deref_put_ne. exact Hne. }
  apply (same_table_trans w w0 w'); [repeat split | exact Hst].
Qed.


(** X5: [Player.roll] on a player who has dice with at least one face, or
    no dice at all, replaces the hand by as many fresh dice, drawn in order
    from the generator, each showing one of the player's faces; it advances
    the generator by that many draws and touches neither the other players
    nor the game. *)
Theorem roll_redraws_the_hand (w : World) (r : ref) :
  rollable w r ->
  exists w',
    Player_roll r w = (Ok tt, w')
    /\ hand w' r = draws w (player_dice_size (deref w r)) (length (hand w r))
    /\ length (hand w' r) = length (hand w r)
    /\ player_ok (deref w' r)
    /\ deref w' r = with_dice (hand w' r) (deref w r)
    /\ rng_pos w' = (rng_pos w + length (hand w r))%nat
    /\ (forall r', r' <> r -> deref w' r' = deref w r')
    /\ same_table w w'.
Proof. apply Player_roll_in_order. Qed.

Lemma roll_redraws_the_hand_witness :
  rollable table3 1%nat
  /\ exists w', Player_roll 1%nat table3 = (Ok tt, w')
       /\ hand w' 1%nat = [1 + 3 `mod` 6]
       /\ rng_pos w' = 1%nat.
Proof.
  assert (Hroll : rollable table3 1%nat) by (right; vm_compute; discriminate).
  split; [exact Hroll |].
  destruct (roll_redraws_the_hand table3 1%nat Hroll) as (w' & Hrun & Hhand & _ & _ & _ & Hpos & _).
  exists w'. split; [exact Hrun |]. split; [exact Hhand | exact Hpos].
Defined.

(** X6: [Player.remove_die] takes away the die at the end of the hand and
    leaves the others in their order; on an empty hand it raises
    [IndexError] and changes nothing.  It never touches another player. *)
Theorem remove_die_drops_the_last (w : World) (r : ref) :
  (forall d x, hand w r = d ++ [x] ->
     exists w', Player_remove_die r w = (Ok tt, w')
       /\ hand w' r = d
       /\ (forall r', r' <> r -> deref w' r' = deref w r')
       /\ game w' = game w /\ rng_pos w' = rng_pos w)
  /\ (hand w r = [] -> Player_remove_die r w = (Raise IndexError, w)).
Proof.
  split; [| apply Player_remove_die_empty].
  intros d x Hh. exists (lose_die r w).
  split; [apply Player_remove_die_ok; rewrite Hh; destruct d; discriminate |].
  split.
  { rewrite hand_lose_die. destruct (decide (r = r)); [| contradiction].
    rewrite Hh. apply removelast_last. }
  split; [intros r' Hne; apply deref_lose_die_ne; exact Hne |].
  split; reflexivity.
Qed.

(** ** Construction, in detail *)

Lemma Player_init_in_order (name : string) (n_dice n_faces : Z) (w : World) :
  1 <= n_faces \/ n_dice <= 0 ->
  exists w',
    Player_init name n_dice n_faces w = (Ok (pid_counter w), w')
    /\ game w' = game w
    /\ pid_counter w' = S (pid_counter w)
    /\ rng_pos w' = (rng_pos w + Z.to_nat n_dice)%nat
    /\ deref w' (pid_counter w)
       = mkPlayer (pid_counter w) name n_faces (draws w n_faces (Z.to_nat n_dice))
    /\ (forall r, r <> pid_counter w -> deref w' r = deref w r).
Proof.
  intros Hf. unfold Player_init. step.
  set (self := pid_counter w).
  set (w0 := set_heap (<[self := mkPlayer self name n_faces []]> (heap (set_pid_counter (S self) w)))
               (set_pid_counter (S self) w)).
  assert (H0 : deref w0 self = mkPlayer self name n_faces [])
    by (unfold w0; apply deref_put_eq).
  destruct (draw_loop_in_order self (seq 0 (Z.to_nat n_dice)) w0)
    as (w' & Hrun & (Hg & Hp & _) & Hpos & Hr & Hn).
  { destruct Hf as [Hf | Hf]; [right; rewrite H0; exact Hf | left].
    replace (Z.to_nat n_dice) with 0%nat by lia. reflexivity. }
  rewrite length_seq in *.
  exists w'. split.
  { unfold bind at 1, modify at 1. unfold bind at 1, modify at 1. fold w0.
    rewrite (bind_ok _ _ w0 w' tt) by exact Hrun. reflexivity. }
  split; [rewrite Hg; reflexivity |]. split; [rewrite Hp; reflexivity |].
  split; [rewrite Hpos; reflexivity |].
  split; [rewrite Hr; unfold hand; rewrite H0; reflexivity |].
  intros r Hne. rewrite Hn by exact Hne. unfold w0. rewrite deref_put_ne by exact Hne.
  reflexivity.
Qed.

Lemma init_loop_in_order (names : list string) : forall w,
  1 <= dice_size (game w) \/ dice_count (game w) <= 0 ->
  exists w',
    for_each names (fun name =>
      let* g := get_game in
      let* p := Player_init name (dice_count g) (dice_size g) in
      update_game (fun g => with_players (players g ++ [p]) g)) w = (Ok tt, w')
    /\ game w' = with_players (players (game w) ++ seq (pid_counter w) (length names)) (game w)
    /\ pid_counter w' = (pid_counter w + length names)%nat
    /\ rng_pos w' = (rng_pos w + length names * Z.to_nat (dice_count (game w)))%nat
    /\ (forall r, (r < pid_counter w)%nat -> deref w' r = deref w r)
    /\ (forall k name, names !! k = Some name ->
          exists d,
            deref w' (pid_counter w + k)%nat
              = mkPlayer (pid_counter w + k) name (dice_size (game w)) d
            /\ length d = Z.to_nat (dice_count (game w))
            /\ Forall (fun v => 1 <= v <= dice_size (game w)) d).
Proof.
  induction names as [| name names IH]; intros w Hf.
  - exists w. split; [reflexivity |]. simpl. rewrite app_nil_r, Nat.add_0_r.
    split; [destruct (game w); reflexivity |].
    split; [reflexivity |]. split; [lia |]. split; [reflexivity |].
    intros k n Hk. discriminate.
  - destruct (Player_init_in_order name (dice_count (game w)) (dice_size (game w)) w Hf)
      as (w1 & Hrun1 & Hg1 & Hp1 & Hpos1 & Hd1 & Hn1).
    set (w2 := set_game (with_players (players (game w1) ++ [pid_counter w]) (game w1)) w1).
    destruct (IH w2) as (w' & Hrun & Hg & Hp & Hpos & Hold & Hnew).
    { simpl. rewrite Hg1. exact Hf. }
    exists w'. split.
    { simpl for_each. rewrite bind_assoc, bind_get_game. cbv beta.
      rewrite bind_assoc. rewrite (bind_ok _ _ w w1 (pid_counter w)) by exact Hrun1.
      rewrite bind_update_game. fold w2. exact Hrun. }
    split; [rewrite Hg; simpl; rewrite Hg1, Hp1, <- app_assoc; reflexivity |].
    split; [rewrite Hp; simpl; lia |].
    split; [rewrite Hpos; simpl; rewrite Hg1, Hpos1; lia |].
    split; [intros r Hr; rewrite Hold by (simpl; lia); apply Hn1; lia |].
    intros [| k] n Hk.
    + simpl in Hk. injection Hk as <-. rewrite Nat.add_0_r.
      rewrite Hold by (simpl; lia).
      change (deref w2 (pid_counter w)) with (deref w1 (pid_counter w)). rewrite Hd1.
      eexists. split; [reflexivity |].
      split; [unfold draws; rewrite length_map, length_seq; reflexivity |].
      destruct Hf as [Hf | Hf]; [apply draws_in_range; exact Hf |].
      unfold draws. replace (Z.to_nat (dice_count (game w))) with 0%nat by lia. constructor.
    + simpl in Hk. destruct (Hnew k n Hk) as (d & Hd & Hlen & Hall).
      exists d. simpl in Hd, Hlen, Hall. rewrite Hg1, Hp1 in *.
      replace (pid_counter w + S k)%nat with (S (pid_counter w) + k)%nat by lia.
      repeat split; assumption.
Qed.

(** X7: [Game.__init__] with at least one face per die (or no dice to roll)
    succeeds: the rotation holds one new player per name, in the order of the
    names, with consecutive identifiers starting at [_pid]; each player
    carries its name and the dice size and holds [dice_count] dice showing
    its faces; [_pid] has advanced by the number of names; players made
    earlier are untouched; and there is neither a bet nor a current or
    previous player. *)
Theorem Game_init_builds_rotation (names : list string) (n_dice n_faces : Z) (w : World) :
  1 <= n_faces \/ n_dice <= 0 ->
  exists w',
    Game_init names n_dice n_faces w = (Ok tt, w')
    /\ game w' = mkGame n_dice n_faces (seq (pid_counter w) (length names)) None None None
    /\ pid_counter w' = (pid_counter w + length names)%nat
    /\ rng_pos w' = (rng_pos w + length names * Z.to_nat n_dice)%nat
    /\ (forall r, (r < pid_counter w)%nat -> deref w' r = deref w r)
    /\ (forall k name, names !! k = Some name ->
          exists d,
            deref w' (pid_counter w + k)%nat = mkPlayer (pid_counter w + k) name n_faces d
            /\ length d = Z.to_nat n_dice
            /\ Forall (fun v => 1 <= v <= n_faces) d).
Proof.
  intros Hf. unfold Game_init. rewrite bind_update_game.
  set (w0 := set_game (mkGame n_dice n_faces [] None None None) w).
  destruct (init_loop_in_order names w0 Hf) as (w' & Hrun & Hg & Hp & Hpos & Hold & Hnew).
  exists w'. split; [exact Hrun |]. split; [rewrite Hg; reflexivity |].
  split; [exact Hp |]. split; [exact Hpos |]. split; [exact Hold | exact Hnew].
Qed.

Lemma Game_init_builds_rotation_witness :
  (1 <= 6 \/ 2 <= 0)
  /\ exists w',
       Game_init ["ann"; "bob"] 2 6 one_face_table = (Ok tt, w')
       /\ players (game w') = [0; 1]%nat
       /\ pid_counter w' = 2%nat
       /\ rng_pos w' = 4%nat.
Proof.
  assert (Hf : 1 <= 6 \/ 2 <= 0) by (left; lia).
  split; [exact Hf |].
  destruct (Game_init_builds_rotation ["ann"; "bob"] 2 6 one_face_table Hf)
    as (w' & Hrun & Hg & Hp & Hpos & _).
  exists w'. split; [exact Hrun |]. split; [rewrite Hg; reflexivity |].
  split; [exact Hp | exact Hpos].
Defined.

(** X8: [Game.__init__] with dice that have no face, at least one die to
    roll and at least one name raises [ValueError] from the first
    [randint]; the first player object has been created by then, without
    dice, and [_pid] stays advanced by one. *)
Theorem Game_init_without_faces_fails
    (name : string) (names : list string) (n_dice n_faces : Z) (w : World) :
  n_faces < 1 -> 1 <= n_dice ->
  exists w',
    Game_init (name :: names) n_dice n_faces w = (Raise ValueError, w')
    /\ pid_counter w' = S (pid_counter w)
    /\ deref w' (pid_counter w) = mkPlayer (pid_counter w) name n_faces []
    /\ players (game w') = []
    /\ rng_pos w' = rng_pos w.
Proof.
  intros Hf Hd. unfold Game_init. rewrite bind_update_game. simpl for_each.
  rewrite bind_assoc, bind_get_game. cbv beta. simpl dice_count. simpl dice_size.
  unfold Player_init. rewrite !bind_assoc, bind_gets.
  unfold bind at 1, modify at 1. unfold bind at 1, modify at 1.
  destruct (Z.to_nat n_dice) as [| n] eqn:En; [lia |].
  simpl for_each. eexists. split.
  { unfold bind at 1. unfold bind at 1. unfold bind at 1. unfold get_player at 1, gets at 1.
    unfold bind at 1. unfold randint at 1. rewrite deref_put_eq. simpl player_dice_size.
    destruct (Z.ltb_spec n_faces 1); [reflexivity | lia]. }
  split; [reflexivity |]. split; [apply deref_put_eq |]. split; reflexivity.
Qed.

Lemma Game_init_without_faces_fails_witness :
  0 < 1 /\ 1 <= 5
  /\ exists w', Game_init ["ann"; "bob"] 5 0 one_face_table = (Raise ValueError, w')
       /\ pid_counter w' = 1%nat.
Proof.
  assert (Hf : 0 < 1) by lia. assert (Hd : 1 <= 5) by lia.
  split; [exact Hf |]. split; [exact Hd |].
  destruct (Game_init_without_faces_fails "ann" ["bob"] 5 0 one_face_table Hf Hd)
    as (w' & Hrun & Hp & _).
  exists w'. split; [exact Hrun | exact Hp].
Defined.

(** ** The round life cycle *)

Lemma roll_all_cursor (l : list ref) : forall w,
  (forall r, r ∈ l -> rollable w r) ->
  Z.of_nat (rng_pos (snd (for_each l Player_roll w)))
  = Z.of_nat (rng_pos w)
    + foldr Z.add 0 (map (fun p => Z.of_nat (length (hand w p))) l).
Proof.
  induction l as [| x l IH]; intros w Hroll; [simpl; lia |].
  destruct (Player_roll_in_order w x) as (w1 & Hrun & _ & Hlen & _ & Hd & Hpos & Hn & _).
  { apply Hroll. left. }
  assert (Hsame : forall r, length (hand w1 r) = length (hand w r)).
  { intros r. destruct (decide (r = x)) as [-> | Hne]; [exact Hlen |].
    unfold hand. rewrite Hn by exact Hne. reflexivity. }
  assert (Hroll1 : forall r, r ∈ l -> rollable w1 r).
  { intros r Hr. assert (Hrw : rollable w r) by (apply Hroll; right; exact Hr).
    destruct (decide (r = x)) as [-> | Hne].
    - destruct Hrw as [Hnil | Hds].
      + left. specialize (Hsame x). rewrite Hnil in Hsame.
        destruct (hand w1 x); [reflexivity | discriminate].
      + right. rewrite Hd. exact Hds.
    - unfold rollable, hand in *. rewrite Hn by exact Hne. exact Hrw. }
  simpl for_each. rewrite (bind_ok _ _ w w1 tt) by exact Hrun.
  rewrite (IH w1 Hroll1), Hpos. simpl map. simpl foldr.
  rewrite (map_ext_in _ (fun p => Z.of_nat (length (hand w p)))) by (intros; rewrite Hsame; reflexivity).
  lia.
Qed.

(** X9: [Game.reset], when every player of the rotation can be rolled,
    clears the bet and keeps the rotation and the two turn pointers; every
    hand has the size it had and the number of dice in play is the same;
    every die of the rotation shows a face of its player; players outside
    the rotation are not rolled; and the generator has advanced by exactly
    the number of dice in play. *)
Theorem reset_rerolls_the_rotation (w : World) :
  (forall r, r ∈ players (game w) -> rollable w r) ->
  exists w',
    Game_reset w = (Ok tt, w')
    /\ game w' = with_current_bet None (game w)
    /\ (forall r, length (hand w' r) = length (hand w r))
    /\ dice_in_play w' = dice_in_play w
    /\ rotation_ok w'
    /\ (forall r, r ∉ players (game w) -> deref w' r = deref w r)
    /\ Z.of_nat (rng_pos w') = Z.of_nat (rng_pos w) + dice_in_play w.
Proof.
  intros Hroll.
  destruct (Game_reset_spec w Hroll) as (w' & Hrun & Hg & _ & _ & _ & _ & _ & Hre).
  assert (Hlen : forall r, length (hand w' r) = length (hand w r))
    by (intros r; apply (rerolled_length _ _ _ _ Hre)).
  exists w'. split; [exact Hrun |]. split; [exact Hg |]. split; [exact Hlen |].
  split.
  { unfold dice_in_play. rewrite Hg. simpl players.
    apply f_equal, map_ext. intros r. rewrite Hlen. reflexivity. }
  split; [intros r Hr; rewrite Hg in Hr; apply (rerolled_player_ok _ _ _ _ Hre), Hr |].
  split.
  { intros r Hr. destruct (Hre r) as (d & Hd & _ & _ & Hout).
    rewrite Hd, (Hout Hr). apply with_dice_id. }
  pose proof (roll_all_cursor (players (game w)) w Hroll) as Hc.
  unfold Game_reset in Hrun. rewrite bind_get_game in Hrun.
  destruct (for_each (players (game w)) Player_roll w) as [[[] | e] w1] eqn:E.
  - rewrite (bind_ok _ _ w w1 tt) in Hrun by exact E.
    injection Hrun as <-. simpl in Hc. exact Hc.
  - rewrite (bind_fail _ _ w w1 e) in Hrun by exact E. discriminate.
Qed.

Lemma reset_rerolls_the_rotation_witness :
  (forall r, r ∈ players (game table3) -> rollable table3 r)
  /\ exists w',
       Game_reset table3 = (Ok tt, w')
       /\ current_bet (game w') = None
       /\ dice_in_play w' = 3
       /\ rng_pos w' = 3%nat.
Proof.
  assert (Hroll : forall r, r ∈ players (game table3) -> rollable table3 r).
  { intros r Hr. apply player_ok_rollable.
    apply (rotation_okb_sound table3); [reflexivity | exact Hr]. }
  split; [exact Hroll |].
  destruct (reset_rerolls_the_rotation table3 Hroll)
    as (w' & Hrun & Hg & _ & Hdip & _ & _ & Hpos).
  exists w'. split; [exact Hrun |]. split; [rewrite Hg; reflexivity |].
  split; [exact Hdip |]. apply Nat2Z.inj. exact Hpos.
Defined.

Lemma Game_setup_outcome (w : World) :
  (forall p rest, players (game w) = p :: rest ->
     (forall r, r ∈ players (game w) -> rollable w r) ->
     exists w',
       Game_setup w = (Ok tt, w')
       /\ game w' = mkGame (dice_count (game w)) (dice_size (game w)) (rest ++ [p])
                           None None (Some p)
       /\ (forall r, length (hand w' r) = length (hand w r))
       /\ rotation_ok w')
  /\ (players (game w) = [] ->
      Game_setup w =
        (Raise IndexError,
         set_game (mkGame (dice_count (game w)) (dice_size (game w)) [] None None None) w)).
Proof.
  split.
  - intros p rest Hp Hroll.
    destruct (roll_all_spec (players (game w)) w Hroll) as (w1 & Hrun & (Hg & _) & Hre).
    eexists. split.
    { unfold Game_setup. rewrite bind_get_game.
      rewrite (bind_ok _ _ w w1 tt) by exact Hrun. do 3 step.
      erewrite bind_ok; [reflexivity |].
      apply Game_next_player_cons. simpl. rewrite Hg. exact Hp. }
    simpl. rewrite Hg. split; [reflexivity |].
    split; [intros r; apply (rerolled_length _ _ _ _ Hre) |].
    intros r Hr. simpl in Hr. apply (rerolled_player_ok _ _ _ _ Hre).
    rewrite Hp. apply elem_of_app in Hr. destruct Hr as [Hr | Hr]; [right; exact Hr |].
    apply list_elem_of_singleton in Hr. subst r. left.
  - intros Hp. unfold Game_setup. rewrite bind_get_game, Hp. simpl for_each.
    do 4 step. erewrite bind_fail; [reflexivity |].
    rewrite Game_next_player_nil by (simpl; exact Hp).
    unfold set_game, with_previous_player, with_current_bet, with_current_player.
    simpl. rewrite Hp. reflexivity.
Qed.

(** X10: [Game.setup] on a rotation [p :: rest] whose players can be
    rolled rolls every hand (sizes kept), clears the bet, makes [p] the
    current player with no previous player, and moves [p] to the back.  On
    an empty rotation it raises [IndexError], having cleared the bet and the
    two turn pointers. *)
Theorem setup_opens_the_game (w : World) :
  (forall p rest, players (game w) = p :: rest ->
     (forall r, r ∈ players (game w) -> rollable w r) ->
     exists w',
       Game_setup w = (Ok tt, w')
       /\ game w' = mkGame (dice_count (game w)) (dice_size (game w)) (rest ++ [p])
                           None None (Some p)
       /\ (forall r, length (hand w' r) = length (hand w r))
       /\ rotation_ok w')
  /\ (players (game w) = [] ->
      Game_setup w =
        (Raise IndexError,
         set_game (mkGame (dice_count (game w)) (dice_size (game w)) [] None None None) w)).
Proof. apply Game_setup_outcome. Qed.

(** ** Elimination *)

Lemma list_remove_after (x : ref) (pre l : list ref) :
  x ∉ pre -> list_remove x (pre ++ x :: l) = Some (pre ++ l).
Proof.
  induction pre as [| y pre IH]; intros Hout; simpl.
  - rewrite Nat.eqb_refl. reflexivity.
  - apply not_elem_of_cons in Hout. destruct Hout as [Hne Hout].
    destruct (Nat.eqb_spec y x) as [E | _]; [congruence |].
    rewrite IH by exact Hout. reflexivity.
Qed.

Lemma set_players_same (w : World) : set_game (with_players (players (game w)) (game w)) w = w.
Proof. destruct w as [? ? g ? ? ? ? ?]. destruct g. reflexivity. Qed.

Lemma remove_loop_filter (P : ref -> Prop) `{!forall x, Decision (P x)} (l : list ref) :
  forall pre w,
    (forall x, x ∈ pre -> ~ P x) ->
    players (game w) = pre ++ l ->
    for_each (filter P l) (fun lp =>
      let* g := get_game in
      match list_remove lp (players g) with
      | None => raise ValueError
      | Some l => update_game (with_players l)
      end) w
    = (Ok tt, set_game (with_players (pre ++ filter (fun x => ~ P x) l) (game w)) w).
Proof.
  induction l as [| x l IH]; intros pre w Hpre Hp.
  - rewrite !filter_nil. simpl. unfold ret. rewrite <- Hp, set_players_same. reflexivity.
  - rewrite !filter_cons. destruct (decide (P x)) as [Hx | Hx].
    + destruct (decide (~ P x)) as [Hn | _]; [contradiction |].
      simpl for_each. rewrite bind_assoc, bind_get_game. cbv beta. rewrite Hp.
      rewrite list_remove_after by (intros Hin; exact (Hpre x Hin Hx)).
      rewrite bind_update_game.
      rewrite (IH pre) by (first [exact Hpre | reflexivity]). reflexivity.
    + destruct (decide (~ P x)) as [_ | Hn]; [| contradiction].
      rewrite (IH (pre ++ [x]) w).
      * rewrite <- app_assoc. reflexivity.
      * intros y Hy. apply elem_of_app in Hy. destruct Hy as [Hy | Hy]; [apply Hpre, Hy |].
        apply list_elem_of_singleton in Hy. subst y. exact Hx.
      * rewrite Hp, <- app_assoc. reflexivity.
Qed.

Lemma Game_remove_lost_players_run (w : World) :
  Game_remove_lost_players w =
    (Ok (filter (fun p => Player_lost w p = true) (players (game w))),
     set_game (with_players (filter (fun p => ~ Player_lost w p = true) (players (game w)))
                 (game w)) w).
Proof.
  unfold Game_remove_lost_players. rewrite bind_gets.
  erewrite bind_ok; [reflexivity |].
  apply (remove_loop_filter _ (players (game w)) [] w);
    [intros x Hx; inversion Hx | reflexivity].
Qed.

(** X11: [Game.remove_lost_players] never fails.  It returns the players
    of the rotation that hold no dice, in rotation order, and leaves in the
    rotation exactly the players that hold dice, in the order they had; it
    changes nothing else, so no hand is touched, and afterwards every player
    of the rotation holds a die. *)
Theorem remove_lost_players_keeps_the_others (w : World) :
  let lost := filter (fun p => Player_lost w p = true) (players (game w)) in
  let kept := filter (fun p => ~ Player_lost w p = true) (players (game w)) in
  let w' := set_game (with_players kept (game w)) w in
  Game_remove_lost_players w = (Ok lost, w')
  /\ (forall r, r ∈ lost <-> r ∈ players (game w) /\ hand w r = [])
  /\ (forall r, r ∈ players (game w') <-> r ∈ players (game w) /\ hand w r <> [])
  /\ kept `sublist_of` players (game w)
  /\ all_hold_dice w'
  /\ (forall r, deref w' r = deref w r).
Proof.
  intros lost kept w'.
  assert (Hlost : forall r, Player_lost w r = true <-> hand w r = []).
  { intros r. unfold Player_lost. rewrite Nat.eqb_eq. apply length_zero_iff_nil. }
  split.
  { apply Game_remove_lost_players_run. }
  split.
  { intros r. unfold lost. rewrite list_elem_of_filter, Hlost. tauto. }
  assert (Hkept : forall r, r ∈ kept <-> r ∈ players (game w) /\ hand w r <> []).
  { intros r. unfold kept. rewrite list_elem_of_filter, Hlost. tauto. }
  split; [exact Hkept |].
  split; [apply sublist_filter |].
  split; [| reflexivity].
  intros r Hr. apply Hkept in Hr. exact (proj2 Hr).
Qed.

(** ** The pool and the two checks *)

Lemma all_dice_length (w : World) : Z.of_nat (length (all_dice w)) = dice_in_play w.
Proof.
  unfold all_dice, dice_in_play.
  induction (players (game w)) as [| r l IH]; [reflexivity |].
  simpl. rewrite length_app, Nat2Z.inj_add, IH. reflexivity.
Qed.

Lemma count_bounds (w : World) (f : Z) : 0 <= count f (all_dice w) <= dice_in_play w.
Proof.
  rewrite <- all_dice_length. unfold count.
  pose proof (count_occ_bound Z.eq_dec f (all_dice w)). lia.
Qed.

(** X12: [dice_in_play] is the length of [all_dice], and no face is
    counted in [all_dice] more often than there are dice in play; hence
    [check_bet] is false and [check_spot_on] is false for every bet on more
    dice than are in play, and [check_bet] is true for every bet on zero or
    fewer dice.  Neither check changes the state. *)
Theorem checks_against_the_pool (w : World) (b : Bet) :
  Z.of_nat (length (all_dice w)) = dice_in_play w
  /\ 0 <= count (face b) (all_dice w) <= dice_in_play w
  /\ (dice_in_play w < amount b ->
      Game_check_bet (Some b) w = (Ok false, w)
      /\ Game_check_spot_on (Some b) w = (Ok false, w))
  /\ (amount b <= 0 -> Game_check_bet (Some b) w = (Ok true, w))
  /\ (Game_check_spot_on (Some b) w = (Ok true, w) ->
      Game_check_bet (Some b) w = (Ok true, w)).
Proof.
  pose proof (count_bounds w (face b)) as Hc.
  split; [apply all_dice_length |]. split; [exact Hc |].
  unfold Game_check_bet, Game_check_spot_on. rewrite !bind_gets. unfold ret.
  split.
  { intros Ha. destruct (Z.leb_spec (amount b) (count (face b) (all_dice w))); [lia |].
    destruct (Z.eqb_spec (count (face b) (all_dice w)) (amount b)); [lia |].
    split; reflexivity. }
  split.
  { intros Ha. destruct (Z.leb_spec (amount b) (count (face b) (all_dice w)));
      [reflexivity | lia]. }
  intros He. destruct (Z.eqb_spec (count (face b) (all_dice w)) (amount b)) as [E | E];
    [| discriminate].
  destruct (Z.leb_spec (amount b) (count (face b) (all_dice w))); [reflexivity | lia].
Qed.

Lemma lose_one_then_reset (x : ref) (r : bool) (w : World) :
  rotation_ok w -> hand w x <> [] ->
  exists w',
    (on_player (Some x) Player_remove_die ;; Game_reset ;; ret r) w = (Ok r, w')
    /\ game w' = with_current_bet None (game w)
    /\ rotation_ok w'
    /\ (forall y, length (hand w' y) =
          if decide (y = x) then Nat.pred (length (hand w y)) else length (hand w y)).
Proof.
  intros Hok Hx.
  destruct (lose_then_reset [x] w Hok) as (w' & Hrun & Hg & _ & _ & _ & _ & _ & Hok' & Hlen & _).
  exists w'. split.
  { unfold on_player. rewrite (bind_ok _ _ w (lose_die x w) tt)
      by (apply Player_remove_die_ok; exact Hx).
    change (lose_die x w) with (lose_dice [x] w).
    rewrite (bind_ok _ _ _ w' tt) by exact Hrun. reflexivity. }
  split; [exact Hg |]. split; [exact Hok' |].
  intros y. rewrite Hlen. change (lose_dice [x] w) with (lose_die x w).
  rewrite hand_lose_die. destruct (decide (y = x)); [apply removelast_length_pred | reflexivity].
Qed.

Lemma call_bluff_run (w : World) (b : Bet) :
  current_bet (game w) = Some b ->
  Game_call_bluff w =
    if amount b <=? count (face b) (all_dice w)
    then (on_player (current_player (game w)) Player_remove_die ;; Game_reset ;; ret false) w
    else (on_player (previous_player (game w)) Player_remove_die ;; Game_reset ;; ret true) w.
Proof.
  intros Hb. unfold Game_call_bluff, Game_check_bet. do 3 step. rewrite Hb. step.
  destruct (amount b <=? count (face b) (all_dice w)); reflexivity.
Qed.

Lemma call_spot_on_run (w : World) (b : Bet) :
  current_bet (game w) = Some b ->
  Game_call_spot_on w =
    if count (face b) (all_dice w) =? amount b
    then (for_each (players (game w)) (fun p =>
            let* g := get_game in
            if is_not p (current_player g) then Player_remove_die p else ret tt) ;;
          Game_reset ;; ret true) w
    else (on_player (current_player (game w)) Player_remove_die ;; Game_reset ;; ret false) w.
Proof.
  intros Hb. unfold Game_call_spot_on, Game_check_spot_on. do 3 step. rewrite Hb. step.
  destruct (count (face b) (all_dice w) =? amount b); reflexivity.
Qed.

(** X13: the two challenges never both go the challenger's way.  On a
    table where both can be resolved, if [call_spot_on] answers [True] (the
    count is exactly the bet) then [call_bluff] on the same table answers
    [False], and if [call_bluff] answers [True] (the count is below the
    bet) then [call_spot_on] answers [False]. *)
Theorem spot_on_and_bluff_exclude (w : World) (b : Bet) (c p : ref) :
  current_bet (game w) = Some b ->
  current_player (game w) = Some c ->
  previous_player (game w) = Some p ->
  NoDup (players (game w)) -> rotation_ok w -> all_hold_dice w ->
  hand w c <> [] -> hand w p <> [] ->
  (exists r1 r2,
     fst (Game_call_spot_on w) = Ok r1 /\ fst (Game_call_bluff w) = Ok r2
     /\ (r1 = true -> r2 = false) /\ (r2 = true -> r1 = false)
     /\ r1 = (count (face b) (all_dice w) =? amount b)
     /\ r2 = (count (face b) (all_dice w) <? amount b)).
Proof.
  intros Hb Hc Hp Hnd Hok Hall Hdc Hdp.
  exists (count (face b) (all_dice w) =? amount b), (count (face b) (all_dice w) <? amount b).
  split.
  { rewrite (call_spot_on_run w b Hb), Hc.
    destruct (count (face b) (all_dice w) =? amount b).
    - destruct (lose_then_reset (others c w) w Hok) as (w' & Hrun & _).
      rewrite (bind_ok _ _ w (lose_dice (others c w) w) tt)
        by (apply spot_on_loop; [exact Hc | exact Hnd | intros r Hr _; apply Hall, Hr]).
      rewrite (bind_ok _ _ _ w' tt) by exact Hrun. reflexivity.
    - destruct (lose_one_then_reset c false w Hok Hdc) as (w' & -> & _). reflexivity. }
  split.
  { rewrite (call_bluff_run w b Hb), Hc, Hp.
    destruct (Z.leb_spec (amount b) (count (face b) (all_dice w)));
      destruct (Z.ltb_spec (count (face b) (all_dice w)) (amount b)); try lia.
    - destruct (lose_one_then_reset c false w Hok Hdc) as (w' & -> & _). reflexivity.
    - destruct (lose_one_then_reset p true w Hok Hdp) as (w' & -> & _). reflexivity. }
  destruct (Z.eqb_spec (count (face b) (all_dice w)) (amount b));
    destruct (Z.ltb_spec (count (face b) (all_dice w)) (amount b));
    repeat split; intros; try reflexivity; try discriminate; lia.
Qed.

Lemma spot_on_and_bluff_exclude_witness :
  current_bet (game table3) = Some (mkBet 1 2)
  /\ NoDup (players (game table3)) /\ rotation_ok table3 /\ all_hold_dice table3
  /\ fst (Game_call_spot_on table3) = Ok true
  /\ fst (Game_call_bluff table3) = Ok false.
Proof.
  assert (Hnd : NoDup (players (game table3)))
    by (apply (bool_decide_unpack _); reflexivity).
  assert (Hok : rotation_ok table3) by (apply rotation_okb_sound; reflexivity).
  assert (Hall : all_hold_dice table3) by (apply all_hold_diceb_sound; reflexivity).
  assert (H0 : hand table3 0%nat <> []) by discriminate.
  assert (H2 : hand table3 2%nat <> []) by discriminate.
  split; [reflexivity |]. split; [exact Hnd |]. split; [exact Hok |]. split; [exact Hall |].
  destruct (spot_on_and_bluff_exclude table3 (mkBet 1 2) 0%nat 2%nat
              eq_refl eq_refl eq_refl Hnd Hok Hall H0 H2)
    as (r1 & r2 & Hs & Hbl & _ & _ & E1 & E2).
  rewrite Hs, Hbl, E1, E2. split; reflexivity.
Defined.

(** ** Going round the table *)

Lemma next_player_prefix (pre : list ref) : forall post w,
  players (game w) = pre ++ post ->
  next_player_times (length pre) w =
    (Ok pre,
     set_game
       (mkGame (dice_count (game w)) (dice_size (game w)) (post ++ pre)
          (current_bet (game w))
          (snd (turn_pointers (current_player (game w), previous_player (game w)) pre))
          (fst (turn_pointers (current_player (game w), previous_player (game w)) pre)))
       w).
Proof.
  induction pre as [| x pre IH]; intros post w Hp.
  - simpl. unfold ret. rewrite app_nil_r. simpl in Hp. rewrite <- Hp.
    destruct w as [? ? g ? ? ? ? ?]. destruct g. reflexivity.
  - simpl next_player_times.
    rewrite (bind_ok _ _ w _ x (Game_next_player_cons w x (pre ++ post) Hp)).
    set (w1 := set_game _ w).
    assert (Hp1 : players (game w1) = pre ++ (post ++ [x]))
      by (unfold w1; simpl; apply eq_sym, app_assoc).
    rewrite (bind_ok _ _ _ _ pre (IH (post ++ [x]) w1 Hp1)).
    unfold ret, w1. simpl. rewrite <- app_assoc. reflexivity.
Qed.

(** X14: [next_player] goes round the table.  Called once for each player
    of a rotation [l], it returns the players of [l] in order and leaves the
    rotation as it was at the start; the last of them is then the current
    player and the one before the previous player.  After the first [k]
    players [pre] of a rotation [pre ++ post] the rotation is [post ++ pre].
    The bet, the hands and everything else are untouched throughout. *)
Theorem next_player_full_circle (w : World) (pre post : list ref) :
  players (game w) = pre ++ post ->
  exists w',
    next_player_times (length pre) w = (Ok pre, w')
    /\ players (game w') = post ++ pre
    /\ (post = [] -> players (game w') = players (game w))
    /\ (forall l a b, pre = l ++ [a; b] ->
          current_player (game w') = Some b /\ previous_player (game w') = Some a)
    /\ (forall a, pre = [a] ->
          current_player (game w') = Some a
          /\ previous_player (game w') = current_player (game w))
    /\ current_bet (game w') = current_bet (game w)
    /\ heap w' = heap w /\ rng_pos w' = rng_pos w /\ pid_counter w' = pid_counter w.
Proof.
  intros Hp. eexists. split; [apply next_player_prefix; exact Hp |]. simpl.
  split; [reflexivity |].
  split; [intros ->; rewrite Hp, app_nil_r; reflexivity |].
  split.
  { intros l a b ->. unfold turn_pointers. rewrite foldl_app. simpl. split; reflexivity. }
  split; [intros a ->; split; reflexivity |].
  repeat split.
Qed.

Lemma next_player_full_circle_witness :
  players (game table3) = [0; 1; 2]%nat ++ []
  /\ exists w',
       next_player_times 3 table3 = (Ok [0; 1; 2]%nat, w')
       /\ players (game w') = [0; 1; 2]%nat
       /\ current_player (game w') = Some 2%nat
       /\ previous_player (game w') = Some 1%nat.
Proof.
  split; [reflexivity |].
  destruct (next_player_full_circle table3 [0; 1; 2]%nat [] eq_refl)
    as (w' & Hrun & Hp & _ & Hcp & _).
  exists w'. split; [exact Hrun |]. split; [exact Hp |].
  exact (Hcp [0%nat] 1%nat 2%nat eq_refl).
Defined.

(** ** What no mutator ever adds *)

Lemma no_more_refl (w : World) : no_more w w.
Proof. repeat split; auto. Qed.

Lemma no_more_trans (w1 w2 w3 : World) : no_more w1 w2 -> no_more w2 w3 -> no_more w1 w3.
Proof.
  intros (H1 & H2 & H3 & H4 & H5 & H6) (K1 & K2 & K3 & K4 & K5 & K6).
  split; [intros r; specialize (H1 r); specialize (K1 r); lia |].
  split; [intros r; rewrite K2; apply H2 |].
  split; [intros r Hr; apply H3, K3, Hr |].
  split; [congruence |]. split; congruence.
Qed.

Lemma adds_bind {A B} (m : M A) (k : A -> M B) :
  adds_nothing m -> (forall a, adds_nothing (k a)) -> adds_nothing (bind m k).
Proof.
  intros Hm Hk w. unfold bind. specialize (Hm w).
  destruct (m w) as [[a | e] w1]; simpl in *; [| exact Hm].
  apply (no_more_trans w w1); [exact Hm | apply Hk].
Qed.

Lemma adds_ret {A} (a : A) : adds_nothing (ret a).
Proof. intros w. apply no_more_refl. Qed.

Lemma adds_raise {A} (e : exn) : adds_nothing (@raise A e).
Proof. intros w. apply no_more_refl. Qed.

Lemma adds_gets {A} (f : World -> A) : adds_nothing (gets f).
Proof. intros w. apply no_more_refl. Qed.

Lemma adds_for_each {A} (l : list A) (body : A -> M unit) :
  (forall x, adds_nothing (body x)) -> adds_nothing (for_each l body).
Proof.
  intros Hb. induction l as [| x l IH]; [apply adds_ret |].
  simpl. apply adds_bind; [apply Hb | intros _; exact IH].
Qed.

Lemma adds_set_pointer (f : Game -> Game) :
  (forall g, players (f g) = players g /\ dice_count (f g) = dice_count g
             /\ dice_size (f g) = dice_size g) ->
  adds_nothing (update_game f).
Proof.
  intros Hf w. destruct (Hf (game w)) as (Hp & Hc & Hs).
  unfold update_game, modify. simpl.
  split; [intros r; reflexivity |]. split; [reflexivity |].
  split; [intros r Hr; simpl in Hr; rewrite Hp in Hr; exact Hr |].
  simpl. repeat split; assumption.
Qed.

Lemma adds_Player_remove_die (r : ref) : adds_nothing (Player_remove_die r).
Proof.
  intros w. destruct (hand w r) as [| v d] eqn:Hh.
  - rewrite Player_remove_die_empty by exact Hh. apply no_more_refl.
  - rewrite Player_remove_die_ok by (rewrite Hh; discriminate). simpl.
    split.
    { intros y. rewrite hand_lose_die. destruct (decide (y = r)); [| reflexivity].
      rewrite removelast_length_pred. lia. }
    split.
    { intros y. destruct (decide (y = r)) as [-> | Hne].
      - rewrite deref_lose_die_eq. reflexivity.
      - rewrite deref_lose_die_ne by exact Hne. reflexivity. }
    repeat split; auto.
Qed.

Lemma draw_loop_any {A} (r : ref) (body : A -> M unit) (l : list A) :
  (forall x w, body x w =
     (let* p := get_player r in
      let* v := randint 1 (player_dice_size p) in
      put_dice r (dice p ++ [v])) w) ->
  forall w w', snd (for_each l body w) = w' ->
  (length (hand w' r) <= length (hand w r) + length l)%nat
  /\ (forall y, y <> r -> deref w' y = deref w y)
  /\ with_dice [] (deref w' r) = with_dice [] (deref w r)
  /\ game w' = game w /\ pid_counter w' = pid_counter w.
Proof.
  intros Hbody. induction l as [| x l IH]; intros w w' Hw'.
  - simpl in Hw'. subst w'. repeat split; auto; lia.
  - simpl for_each in Hw'. unfold bind at 1 in Hw'. rewrite Hbody in Hw'.
    unfold get_player in Hw'. rewrite bind_gets in Hw'. unfold bind at 1 in Hw'.
    unfold randint in Hw'.
    destruct (player_dice_size (deref w r) <? 1).
    + simpl in Hw'. subst w'. repeat split; auto; lia.
    + unfold put_dice, modify in Hw'. cbv beta iota in Hw'.
      set (w0 := set_rng_pos (S (rng_pos w)) w) in *.
      set (v := 1 + entropy w (rng_pos w) `mod` (player_dice_size (deref w r) - 1 + 1)) in *.
      set (w1 := set_heap (<[r := with_dice (dice (deref w r) ++ [v]) (deref w0 r)]> (heap w0)) w0) in *.
      assert (Hr1 : deref w1 r = with_dice (hand w r ++ [v]) (deref w r))
        by (unfold w1; rewrite deref_put_eq; reflexivity).
      assert (Hn1 : forall y, y <> r -> deref w1 y = deref w y)
        by (intros y Hne; unfold w1; rewrite deref_put_ne by exact Hne; reflexivity).
      destruct (IH w1 w' Hw') as (Hlen & Hn & Hid & Hg & Hp).
      split.
      { eapply Nat.le_trans; [exact Hlen |]. unfold hand at 1. rewrite Hr1.
        unfold with_dice. simpl dice. rewrite length_app. simpl. lia. }
      split; [intros y Hne; rewrite Hn by exact Hne; apply Hn1; exact Hne |].
      split; [rewrite Hid, Hr1; reflexivity |].
      split; [rewrite Hg; reflexivity | rewrite Hp; reflexivity].
Qed.

Lemma adds_Player_roll (r : ref) : adds_nothing (Player_roll r).
Proof.
  intros w. unfold Player_roll. unfold get_player at 1. rewrite bind_gets.
  unfold put_dice at 1, modify at 1. unfold bind at 1.
  set (w0 := set_heap (<[r := with_dice [] (deref w r)]> (heap w)) w).
  assert (Hr0 : deref w0 r = with_dice [] (deref w r)) by (unfold w0; apply deref_put_eq).
  set (w' := snd _).
  assert (H : (length (hand w' r) <= length (hand w0 r) + length (seq 0 (length (dice (deref w r)))))%nat
              /\ (forall y, y <> r -> deref w' y = deref w0 y)
              /\ with_dice [] (deref w' r) = with_dice [] (deref w0 r)
              /\ game w' = game w0 /\ pid_counter w' = pid_counter w0).
  { eapply draw_loop_any; [| reflexivity]. intros x w2. reflexivity. }
  destruct H as (Hlen & Hn & Hid & Hg & Hp).
  rewrite length_seq in Hlen. unfold hand at 2 in Hlen. rewrite Hr0 in Hlen. simpl in Hlen.
  split.
  { intros y. destruct (decide (y = r)) as [-> | Hne]; [exact Hlen |].
    unfold hand. rewrite Hn by exact Hne. unfold w0. rewrite deref_put_ne by exact Hne.
    reflexivity. }
  split.
  { intros y. destruct (decide (y = r)) as [-> | Hne]; [rewrite Hid, Hr0; reflexivity |].
    rewrite Hn by exact Hne. unfold w0. rewrite deref_put_ne by exact Hne. reflexivity. }
  rewrite Hg, Hp. repeat split; auto.
Qed.

Lemma adds_Game_next_player : adds_nothing Game_next_player.
Proof.
  intros w. destruct (players (game w)) as [| p rest] eqn:Hp.
  - rewrite Game_next_player_nil by exact Hp. simpl. repeat split; auto.
  - rewrite (Game_next_player_cons w p rest Hp). simpl.
    split; [intros r; reflexivity |]. split; [reflexivity |].
    split; [| repeat split; reflexivity].
    intros r Hr. simpl in Hr. rewrite Hp. apply elem_of_app in Hr.
    destruct Hr as [Hr | Hr]; [right; exact Hr |].
    apply list_elem_of_singleton in Hr. subst r. left.
Qed.

Lemma list_remove_subset (x : ref) (k l : list ref) :
  list_remove x k = Some l -> forall r, r ∈ l -> r ∈ k.
Proof.
  revert l. induction k as [| y k IH]; intros l Hrem r Hr; [discriminate |].
  simpl in Hrem. destruct (Nat.eqb y x).
  - injection Hrem as <-. right. exact Hr.
  - destruct (list_remove x k) as [l' |]; [| discriminate]. injection Hrem as <-.
    apply elem_of_cons in Hr. destruct Hr as [-> | Hr]; [left | right; apply (IH l'); auto].
Qed.

Lemma adds_remove_one (lp : ref) :
  adds_nothing (let* g := get_game in
                match list_remove lp (players g) with
                | None => raise ValueError
                | Some l => update_game (with_players l)
                end).
Proof.
  intros w. rewrite bind_get_game.
  destruct (list_remove lp (players (game w))) as [l |] eqn:E; [| apply no_more_refl].
  unfold update_game, modify. simpl.
  split; [intros r; reflexivity |]. split; [reflexivity |].
  split; [intros r Hr; apply (list_remove_subset lp _ l E r Hr) | repeat split; reflexivity].
Qed.

Ltac adds :=
  repeat match goal with
    | |- adds_nothing (bind get_game _) =>
        first [ apply adds_remove_one | apply adds_bind; [apply adds_gets | intros ?] ]
    | |- adds_nothing (bind _ _) => apply adds_bind; [| intros ?]
    | |- adds_nothing (for_each _ _) => apply adds_for_each; intros ?
    | |- adds_nothing (ret _) => apply adds_ret
    | |- adds_nothing (raise _) => apply adds_raise
    | |- adds_nothing (gets _) => apply adds_gets
    | |- adds_nothing (Player_roll _) => apply adds_Player_roll
    | |- adds_nothing (Player_remove_die _) => apply adds_Player_remove_die
    | |- adds_nothing Game_next_player => apply adds_Game_next_player
    | |- adds_nothing (update_game (with_current_bet _)) =>
        apply adds_set_pointer; intros ?; repeat split
    | |- adds_nothing (update_game (with_current_player _)) =>
        apply adds_set_pointer; intros ?; repeat split
    | |- adds_nothing (update_game (with_previous_player _)) =>
        apply adds_set_pointer; intros ?; repeat split
    | |- adds_nothing (match ?x with _ => _ end) => destruct x
    end.

Lemma adds_Game_reset : adds_nothing Game_reset.
Proof. unfold Game_reset. adds. Qed.

(** X15: no mutator ever adds anything.  After any call of [setup],
    [next_player], [first_bet], [place_bet], [call_bluff], [call_spot_on] or
    [remove_lost_players], from any state and whether it returned or raised,
    no hand is longer than before, no player has another identifier, name or
    dice size, the rotation holds no player it did not hold, and the game's
    dice count and dice size and the identifier counter are the same. *)
Theorem mutators_add_nothing (m : mutator) (w : World) :
  no_more w (snd (run_mutator m w)).
Proof.
  revert w. change (adds_nothing (run_mutator m)).
  destruct m; simpl;
    unfold void, Game_setup, Game_first_bet, Game_place_bet, Game_call_bluff,
      Game_call_spot_on, Game_remove_lost_players, Game_check_bet,
      Game_check_spot_on, on_player;
    adds; apply adds_Game_reset.
Qed.

(** ** Invariants of the table *)

Lemma void_ok {A} (m : M A) (w w' : World) :
  void m w = (Ok tt, w') -> exists a, m w = (Ok a, w').
Proof.
  unfold void, bind. destruct (m w) as [[a | e] w1]; [| discriminate].
  unfold ret. intros H. injection H as <-. eauto.
Qed.

Lemma bet_ok_sets_bet (w w' : World) (b : Bet) :
  (Game_first_bet b w = (Ok tt, w') \/ Game_place_bet b w = (Ok tt, w')) ->
  w' = set_game (with_current_bet (Some b) (game w)) w.
Proof.
  unfold Game_first_bet, Game_place_bet. rewrite !bind_gets.
  destruct (dice_in_play w <? amount b); [intros [H | H]; discriminate |].
  rewrite !bind_get_game.
  destruct ((dice_size (game w) <? face b) || (face b <? 1)); [intros [H | H]; discriminate |].
  intros [H | H].
  - injection H as <-. reflexivity.
  - destruct (current_bet (game w)) as [cur |]; [| discriminate].
    destruct ((amount cur <? amount b) || _); [| discriminate].
    injection H as <-. reflexivity.
Qed.

Lemma tail_ok_keeps (o : option ref) (r a : bool) (w w' : World) :
  rotation_ok w ->
  (on_player o Player_remove_die ;; Game_reset ;; ret r) w = (Ok a, w') ->
  players (game w') = players (game w) /\ rotation_ok w'.
Proof.
  intros Hok Hrun. destruct o as [x |]; [| discriminate].
  destruct (hand w x) as [| v d] eqn:Hx.
  - unfold on_player in Hrun.
    rewrite (bind_fail _ _ w w IndexError) in Hrun
      by (apply Player_remove_die_empty; exact Hx).
    discriminate.
  - destruct (lose_one_then_reset x r w Hok) as (w1 & Hrun1 & Hg & Hok1 & _);
      [rewrite Hx; discriminate |].
    rewrite Hrun1 in Hrun. injection Hrun as _ <-. rewrite Hg. split; [reflexivity | exact Hok1].
Qed.

Lemma challenge_needs_bet (w : World) :
  current_bet (game w) = None ->
  Game_call_bluff w = (Raise AttributeError, w)
  /\ Game_call_spot_on w = (Raise AttributeError, w).
Proof.
  intros Hb. unfold Game_call_bluff, Game_call_spot_on, Game_check_bet, Game_check_spot_on.
  run. rewrite Hb. split; reflexivity.
Qed.

(** X16: the rotation stays well formed.  If the players of the rotation
    are distinct and their dice show faces of theirs, the same holds after
    every mutator call that returns (for [call_spot_on], on a rotation whose
    players all hold dice, as it is after [remove_lost_players]). *)
Theorem successful_mutators_keep_invariants (m : mutator) (w w' : World) :
  NoDup (players (game w)) -> rotation_ok w ->
  (m = CallSpotOn -> all_hold_dice w) ->
  run_mutator m w = (Ok tt, w') ->
  NoDup (players (game w')) /\ rotation_ok w'.
Proof.
  intros Hnd Hok Hall Hrun. destruct m; simpl in Hrun.
  - destruct (players (game w)) as [| p rest] eqn:Hp.
    + rewrite (proj2 (Game_setup_outcome w) Hp) in Hrun. discriminate.
    + destruct (proj1 (Game_setup_outcome w) p rest Hp) as (w1 & Hrun1 & Hg & _ & Hok1).
      { intros r Hr. apply player_ok_rollable, Hok. exact Hr. }
      rewrite Hrun1 in Hrun. injection Hrun as <-. split; [| exact Hok1].
      rewrite Hg. simpl. rewrite <- Permutation_cons_append. exact Hnd.
  - apply void_ok in Hrun. destruct Hrun as (a & Hrun).
    destruct (players (game w)) as [| p rest] eqn:Hp.
    + rewrite (Game_next_player_nil w Hp) in Hrun. discriminate.
    + rewrite (Game_next_player_cons w p rest Hp) in Hrun. injection Hrun as _ <-.
      simpl. split; [rewrite <- Permutation_cons_append; exact Hnd |].
      intros r Hr. simpl in Hr. apply Hok. rewrite Hp.
      apply elem_of_app in Hr. destruct Hr as [Hr | Hr]; [right; exact Hr |].
      apply list_elem_of_singleton in Hr. subst r. left.
  - rewrite (bet_ok_sets_bet w w' b (or_introl Hrun)). split; assumption.
  - rewrite (bet_ok_sets_bet w w' b (or_intror Hrun)). split; assumption.
  - apply void_ok in Hrun. destruct Hrun as (a & Hrun).
    destruct (current_bet (game w)) as [b |] eqn:Hb.
    + rewrite (call_bluff_run w b Hb) in Hrun.
      destruct (amount b <=? count (face b) (all_dice w));
        destruct (tail_ok_keeps _ _ _ w w' Hok Hrun) as [Hp Hok']; rewrite Hp; auto.
    + rewrite (proj1 (challenge_needs_bet w Hb)) in Hrun. discriminate.
  - apply void_ok in Hrun. destruct Hrun as (a & Hrun). specialize (Hall eq_refl).
    destruct (current_bet (game w)) as [b |] eqn:Hb.
    + rewrite (call_spot_on_run w b Hb) in Hrun.
      destruct (count (face b) (all_dice w) =? amount b).
      * assert (Hloop : exists l,
                  for_each (players (game w)) (fun p =>
                    let* g := get_game in
                    if is_not p (current_player g) then Player_remove_die p else ret tt) w
                  = (Ok tt, lose_dice l w)).
        { destruct (current_player (game w)) as [c |] eqn:Hc.
          - exists (others c w). apply spot_on_loop; [exact Hc | exact Hnd |].
            intros r Hr _. apply Hall, Hr.
          - exists (players (game w)).
            apply spot_on_loop_nobody; [exact Hc | exact Hnd | exact Hall]. }
        destruct Hloop as (l & Hloop).
        destruct (lose_then_reset l w Hok) as (w1 & Hrun1 & Hg & _ & _ & _ & _ & _ & Hok1 & _).
        rewrite (bind_ok _ _ w _ tt Hloop) in Hrun.
        rewrite (bind_ok _ _ _ w1 tt Hrun1) in Hrun. injection Hrun as _ <-.
        rewrite Hg. split; [exact Hnd | exact Hok1].
      * destruct (tail_ok_keeps _ _ _ w w' Hok Hrun) as [Hp Hok']. rewrite Hp. auto.
    + rewrite (proj2 (challenge_needs_bet w Hb)) in Hrun. discriminate.
  - apply void_ok in Hrun. destruct Hrun as (a & Hrun).
    rewrite Game_remove_lost_players_run in Hrun. injection Hrun as _ <-. simpl.
    split; [apply NoDup_filter; exact Hnd |].
    intros r Hr. simpl in Hr. apply list_elem_of_filter in Hr. apply Hok, Hr.
Qed.

Lemma successful_mutators_keep_invariants_witness :
  NoDup (players (game table3)) /\ rotation_ok table3
  /\ exists w', run_mutator NextPlayer table3 = (Ok tt, w')
       /\ NoDup (players (game w')) /\ rotation_ok w'.
Proof.
  assert (Hnd : NoDup (players (game table3)))
    by (apply (bool_decide_unpack _); reflexivity).
  assert (Hok : rotation_ok table3) by (apply rotation_okb_sound; reflexivity).
  split; [exact Hnd |]. split; [exact Hok |].
  eexists. split; [reflexivity |].
  apply (successful_mutators_keep_invariants NextPlayer table3 _ Hnd Hok);
    [discriminate | reflexivity].
Defined.

(** ** A challenge followed by the elimination *)

Lemma filter_agree (P Q : ref -> Prop) `{!forall x, Decision (P x)} `{!forall x, Decision (Q x)}
    (l : list ref) :
  (forall r, r ∈ l -> (P r <-> Q r)) -> filter P l = filter Q l.
Proof.
  induction l as [| y l IH]; intros Hext; [reflexivity |].
  rewrite !filter_cons.
  rewrite IH by (intros r Hr; apply Hext; right; exact Hr).
  assert (Hy : P y <-> Q y) by (apply Hext; left).
  destruct (decide (P y)), (decide (Q y)); tauto.
Qed.

Lemma filter_none (P : ref -> Prop) `{!forall x, Decision (P x)} (l : list ref) :
  (forall r, r ∈ l -> ~ P r) -> filter P l = [].
Proof.
  induction l as [| y l IH]; intros Hext; [reflexivity |].
  rewrite filter_cons. destruct (decide (P y)) as [Hy | _].
  - exfalso. apply (Hext y); [left | exact Hy].
  - apply IH. intros r Hr. apply Hext. right. exact Hr.
Qed.

Lemma filter_all (P : ref -> Prop) `{!forall x, Decision (P x)} (l : list ref) :
  (forall r, r ∈ l -> P r) -> filter P l = l.
Proof.
  induction l as [| y l IH]; intros Hext; [reflexivity |].
  rewrite filter_cons. destruct (decide (P y)) as [_ | Hy].
  - f_equal. apply IH. intros r Hr. apply Hext. right. exact Hr.
  - exfalso. apply Hy, Hext. left.
Qed.

Lemma filter_only (x : ref) (l : list ref) :
  NoDup l -> x ∈ l -> filter (fun r => r = x) l = [x].
Proof.
  induction l as [| y l IH]; intros Hnd Hin; [inversion Hin |].
  apply NoDup_cons in Hnd. destruct Hnd as [Hy Hnd].
  rewrite filter_cons. destruct (decide (y = x)) as [-> | Hne].
  - f_equal. apply filter_none. intros r Hr ->. contradiction.
  - apply elem_of_cons in Hin. destruct Hin as [-> | Hin]; [contradiction |].
    apply IH; assumption.
Qed.

(** X17: a player leaves the game exactly when a challenge takes their
    last die.  After [call_bluff] on a rotation of distinct players who all
    hold dice, [remove_lost_players] returns the loser alone if the loser
    held one die, and then the rotation is the old one without the loser;
    otherwise it returns nobody and the rotation is the old one.  Either
    way every player left holds a die. *)
Theorem bluff_then_elimination (w : World) (b : Bet) (c p : ref) :
  current_bet (game w) = Some b ->
  current_player (game w) = Some c ->
  previous_player (game w) = Some p ->
  NoDup (players (game w)) -> rotation_ok w -> all_hold_dice w ->
  c ∈ players (game w) -> p ∈ players (game w) ->
  let satisfied := amount b <=? count (face b) (all_dice w) in
  let loser := if satisfied then c else p in
  exists w1 w2 lost,
    Game_call_bluff w = (Ok (negb satisfied), w1)
    /\ Game_remove_lost_players w1 = (Ok lost, w2)
    /\ (length (hand w loser) = 1%nat ->
        lost = [loser]
        /\ players (game w2) = filter (fun r => r <> loser) (players (game w)))
    /\ (length (hand w loser) <> 1%nat ->
        lost = [] /\ players (game w2) = players (game w))
    /\ all_hold_dice w2
    /\ game_over w2 = Nat.eqb (length (players (game w2))) 1.
Proof.
  intros Hb Hc Hp Hnd Hok Hall Hcin Hpin satisfied loser.
  assert (Hlin : loser ∈ players (game w)) by (unfold loser; destruct satisfied; assumption).
  assert (Hdl : hand w loser <> []) by (apply Hall, Hlin).
  destruct (lose_one_then_reset loser (negb satisfied) w Hok Hdl)
    as (w1 & Hrun1 & Hg1 & Hok1 & Hsize).
  assert (Hp1 : players (game w1) = players (game w)) by (rewrite Hg1; reflexivity).
  assert (Hlost : forall r, r ∈ players (game w) ->
            (Player_lost w1 r = true <-> r = loser /\ length (hand w loser) = 1%nat)).
  { intros r Hr. unfold Player_lost. rewrite Nat.eqb_eq, Hsize.
    specialize (Hall r Hr). destruct (decide (r = loser)) as [-> | Hne].
    - destruct (hand w loser) as [| v [| v' d]]; simpl; [contradiction | tauto |].
      split; [discriminate | intros [_ H]; discriminate].
    - destruct (hand w r); [contradiction |]. simpl.
      split; [discriminate | tauto]. }
  exists w1, (set_game (with_players (filter (fun q => ~ Player_lost w1 q = true)
                                        (players (game w1))) (game w1)) w1),
         (filter (fun q => Player_lost w1 q = true) (players (game w1))).
  split.
  { rewrite (call_bluff_run w b Hb), Hc, Hp. fold satisfied. unfold loser in Hrun1.
    destruct satisfied; exact Hrun1. }
  split; [apply Game_remove_lost_players_run |].
  rewrite Hp1. simpl players.
  split.
  { intros H1. split.
    - rewrite (filter_agree _ (fun r => r = loser)) by (intros r Hr; rewrite (Hlost r Hr); tauto).
      apply filter_only; assumption.
    - apply filter_agree. intros r Hr. rewrite (Hlost r Hr). tauto. }
  split.
  { intros H1. split.
    - apply filter_none. intros r Hr. rewrite (Hlost r Hr). tauto.
    - apply filter_all. intros r Hr. rewrite (Hlost r Hr). tauto. }
  split; [| reflexivity].
  intros r Hr Hnil. simpl in Hr. apply list_elem_of_filter in Hr. destruct Hr as [Hnl _].
  apply Hnl. unfold Player_lost. change (hand (set_game _ w1) r) with (hand w1 r) in Hnil.
  rewrite Hnil. reflexivity.
Qed.

Lemma bluff_then_elimination_witness :
  current_bet (game (table2 3)) = Some (mkBet 2 3)
  /\ NoDup (players (game (table2 3))) /\ rotation_ok (table2 3) /\ all_hold_dice (table2 3)
  /\ exists w1 w2,
       Game_call_bluff (table2 3) = (Ok false, w1)
       /\ Game_remove_lost_players w1 = (Ok [0%nat], w2)
       /\ players (game w2) = [1%nat]
       /\ game_over w2 = true.
Proof.
  assert (Hnd : NoDup (players (game (table2 3))))
    by (apply (bool_decide_unpack _); reflexivity).
  assert (Hok : rotation_ok (table2 3)) by (apply rotation_okb_sound; reflexivity).
  assert (Hall : all_hold_dice (table2 3)) by (apply all_hold_diceb_sound; reflexivity).
  assert (H0 : 0%nat ∈ players (game (table2 3))) by left.
  assert (H1 : 1%nat ∈ players (game (table2 3))) by (right; left).
  split; [reflexivity |]. split; [exact Hnd |]. split; [exact Hok |]. split; [exact Hall |].
  destruct (bluff_then_elimination (table2 3) (mkBet 2 3) 0%nat 1%nat
              eq_refl eq_refl eq_refl Hnd Hok Hall H0 H1)
    as (w1 & w2 & lost & Hrun1 & Hrun2 & Hone & _ & _ & Hover).
  destruct (Hone eq_refl) as [-> Hp2].
  exists w1, w2. split; [exact Hrun1 |]. split; [exact Hrun2 |].
  split; [exact Hp2 |]. rewrite Hover, Hp2. reflexivity.
Defined.

(** ** The odds as probabilities *)

Lemma sum_snoc (l : list Qc) (x : Qc) :
  foldr Qcplus 0%Qc (l ++ [x]) = (foldr Qcplus 0%Qc l + x)%Qc.
Proof. induction l as [| y l IH]; simpl; [ring | rewrite IH; ring]. Qed.



















(** X20: degenerate inputs.  With a dice size of zero every call of
    [spot_on_equation] raises [ZeroDivisionError], and so does
    [bet_equation] whenever its range of counts is not empty; but when the
    adjusted count exceeds the adjusted pool, [bet_equation] sums nothing and
    returns 0 without an error, whatever the dice size. *)
Theorem degenerate_odds (w : World) (f k n : Z) (kd : list_ref) :
  let m := n - Z.of_nat (length (read_list kd w)) in
  let q := k - count f (read_list kd w) in
  (dice_size (game w) = 0 ->
   Game_spot_on_equation f k n kd w = (Raise ZeroDivisionError, w))
  /\ (spot_on_default w = [] -> dice_size (game w) = 0 -> q <= m ->
      Game_bet_equation f k n kd w = (Raise ZeroDivisionError, w))
  /\ (m < q -> Game_bet_equation f k n kd w = (Ok (Fin 0%Qc), w)).
Proof.
  intros m q.
  assert (Hz : forall a b, binomial_mass_float 0 a b = Raise ZeroDivisionError)
    by reflexivity.
  split; [intros Hd; rewrite spot_on_equation_run, Hd, Hz; reflexivity |].
  split.
  - intros Hdef Hd Hq. rewrite bet_equation_run by exact Hdef. fold m q.
    unfold at_least_float, range. rewrite Hd, seqZ_cons by lia. simpl. reflexivity.
  - intros Hq. rewrite bet_equation_run_any. cbv zeta. fold m q.
    unfold range. rewrite seqZ_nil by lia. reflexivity.
Qed.

(** ** A correct spot-on call and the players it eliminates *)

Lemma lose_others_then_reset (c : ref) (w : World) :
  current_player (game w) = Some c ->
  NoDup (players (game w)) -> rotation_ok w -> all_hold_dice w ->
  exists w',
    (for_each (players (game w)) (fun p =>
       let* g := get_game in
       if is_not p (current_player g) then Player_remove_die p else ret tt) ;;
     Game_reset ;; ret true) w = (Ok true, w')
    /\ game w' = with_current_bet None (game w)
    /\ rotation_ok w'
    /\ (forall y, y ∈ players (game w) ->
          length (hand w' y) =
            if decide (y = c) then length (hand w y) else Nat.pred (length (hand w y))).
Proof.
  intros Hc Hnd Hok Hall.
  destruct (lose_then_reset (others c w) w Hok)
    as (w' & Hrun & Hg & _ & _ & _ & _ & _ & Hok' & Hlen & _).
  exists w'. split.
  { rewrite (bind_ok _ _ w (lose_dice (others c w) w) tt).
    - rewrite (bind_ok _ _ _ w' tt) by exact Hrun. reflexivity.
    - apply spot_on_loop; [exact Hc | exact Hnd |].
      intros r Hr _. apply Hall. exact Hr. }
  split; [exact Hg |]. split; [exact Hok' |].
  intros y Hy. rewrite Hlen, hand_lose_dice by (apply NoDup_filter; exact Hnd).
  destruct (decide (y = c)) as [-> | Hne].
  - destruct (decide (c ∈ others c w)) as [Hin | _]; [| reflexivity].
    apply elem_of_others in Hin. destruct Hin as [Hcc _]. contradiction.
  - destruct (decide (y ∈ others c w)) as [_ | Hout]; [apply removelast_length_pred |].
    exfalso. apply Hout, elem_of_others. split; assumption.
Qed.

(** X21: a correct spot-on call never costs the caller the game.  On
    a rotation of distinct players who all hold dice, with the pool showing
    exactly the bet, [call_spot_on] returns [True] and the following
    [remove_lost_players] returns exactly the players other than the caller
    who held a single die, in rotation order; the caller and the players who
    held more stay, in their order, each with a die.  If every other player
    held a single die, the caller alone is left and the game is over. *)
Theorem spot_on_then_elimination (w : World) (b : Bet) (c : ref) :
  current_bet (game w) = Some b ->
  current_player (game w) = Some c ->
  NoDup (players (game w)) -> rotation_ok w -> all_hold_dice w ->
  c ∈ players (game w) ->
  count (face b) (all_dice w) = amount b ->
  exists w1 w2,
    Game_call_spot_on w = (Ok true, w1)
    /\ Game_remove_lost_players w1
       = (Ok (filter (fun r => r <> c /\ length (hand w r) = 1%nat) (players (game w))), w2)
    /\ players (game w2)
       = filter (fun r => r = c \/ length (hand w r) <> 1%nat) (players (game w))
    /\ c ∈ players (game w2)
    /\ all_hold_dice w2
    /\ ((forall r, r ∈ players (game w) -> r <> c -> length (hand w r) = 1%nat) ->
        players (game w2) = [c] /\ game_over w2 = true).
Proof.
  intros Hb Hc Hnd Hok Hall Hcin Hexact.
  destruct (lose_others_then_reset c w Hc Hnd Hok Hall) as (w1 & Hrun1 & Hg1 & Hok1 & Hsize).
  assert (Hp1 : players (game w1) = players (game w)) by (rewrite Hg1; reflexivity).
  assert (Hlost : forall r, r ∈ players (game w) ->
            (Player_lost w1 r = true <-> r <> c /\ length (hand w r) = 1%nat)).
  { intros r Hr. unfold Player_lost. rewrite Nat.eqb_eq, (Hsize r Hr).
    specialize (Hall r Hr). destruct (decide (r = c)) as [-> | Hne].
    - destruct (hand w c); [contradiction |]. simpl.
      split; [discriminate | intros [H _]; contradiction].
    - destruct (hand w r) as [| v [| v' d]]; simpl; [contradiction | tauto |].
      split; [discriminate | intros [_ H]; discriminate]. }
  assert (Hkeep : filter (fun q => ~ Player_lost w1 q = true) (players (game w))
                  = filter (fun r => r = c \/ length (hand w r) <> 1%nat) (players (game w))).
  { apply filter_agree. intros r Hr. rewrite (Hlost r Hr).
    destruct (decide (r = c)); destruct (decide (length (hand w r) = 1%nat)); tauto. }
  exists w1, (set_game (with_players (filter (fun q => ~ Player_lost w1 q = true)
                                        (players (game w1))) (game w1)) w1).
  split.
  { rewrite (call_spot_on_run w b Hb), Hexact, Z.eqb_refl. exact Hrun1. }
  split.
  { rewrite Game_remove_lost_players_run, Hp1. f_equal. f_equal.
    apply filter_agree. intros r Hr. apply Hlost. exact Hr. }
  rewrite Hp1. simpl players. rewrite Hkeep.
  split; [reflexivity |].
  split; [apply list_elem_of_filter; split; [left; reflexivity | exact Hcin] |].
  split.
  { intros r Hr Hnil. rewrite <- Hkeep in Hr. apply list_elem_of_filter in Hr.
    destruct Hr as [Hnl _]. apply Hnl. unfold Player_lost.
    change (hand (set_game _ w1) r) with (hand w1 r) in Hnil. rewrite Hnil. reflexivity. }
  intros Hone.
  assert (Honly : filter (fun r => r = c \/ length (hand w r) <> 1%nat) (players (game w)) = [c]).
  { rewrite (filter_agree _ (fun r => r = c)); [apply filter_only; assumption |].
    intros r Hr. split; [| intros ->; left; reflexivity].
    intros [E | E]; [exact E |]. destruct (decide (r = c)) as [E' | E']; [exact E' |].
    exfalso. apply E, Hone; assumption. }
  split; [exact Honly |]. unfold game_over. simpl players. rewrite Honly. reflexivity.
Qed.

Lemma spot_on_then_elimination_witness :
  current_bet (game table3) = Some (mkBet 1 2)
  /\ NoDup (players (game table3)) /\ rotation_ok table3 /\ all_hold_dice table3
  /\ exists w1 w2,
       Game_call_spot_on table3 = (Ok true, w1)
       /\ fst (Game_remove_lost_players w1) = Ok [1; 2]%nat
       /\ players (game w2) = [0%nat]
       /\ game_over w2 = true.
Proof.
  assert (Hnd : NoDup (players (game table3)))
    by (apply (bool_decide_unpack _); reflexivity).
  assert (Hok : rotation_ok table3) by (apply rotation_okb_sound; reflexivity).
  assert (Hall : all_hold_dice table3) by (apply all_hold_diceb_sound; reflexivity).
  assert (H0 : 0%nat ∈ players (game table3)) by left.
  split; [reflexivity |]. split; [exact Hnd |]. split; [exact Hok |]. split; [exact Hall |].
  destruct (spot_on_then_elimination table3 (mkBet 1 2) 0%nat
              eq_refl eq_refl Hnd Hok Hall H0 eq_refl)
    as (w1 & w2 & Hrun1 & Hrun2 & _ & _ & _ & Hend).
  destruct Hend as [Hp2 Hover].
  { intros r Hr Hne. simpl in Hr.
    apply elem_of_cons in Hr. destruct Hr as [-> | Hr]; [contradiction |].
    apply elem_of_cons in Hr. destruct Hr as [-> | Hr]; [reflexivity |].
    apply list_elem_of_singleton in Hr. subst r. reflexivity. }
  exists w1, w2. split; [exact Hrun1 |]. split; [rewrite Hrun2; reflexivity |].
  split; [exact Hp2 | exact Hover].
Defined.

(** ** The colours of the players *)

Lemma colors_distinct : NoDup colors.
Proof. apply (bool_decide_unpack _). vm_compute. reflexivity. Qed.

Lemma color_of_id (p : ref) (w : World) :
  exists c,
    color_from_player p w = (Ok c, w)
    /\ colors !! (player_id (deref w p) mod 10)%nat = Some c.
Proof.
  unfold color_from_player, get_player. rewrite bind_gets. unfold lift, list_index.
  change (length colors) with 10%nat.
  destruct (colors !! (player_id (deref w p) mod 10)%nat) as [c |] eqn:E.
  - exists c. split; reflexivity.
  - exfalso. apply lookup_ge_None in E. change (length colors) with 10%nat in E.
    pose proof (Nat.mod_upper_bound (player_id (deref w p)) 10). lia.
Qed.

Lemma same_residue (a i j : nat) :
  ((a + i) mod 10 = (a + j) mod 10 <-> i mod 10 = j mod 10)%nat.
Proof.
  pose proof (Nat.div_mod_eq (a + i) 10). pose proof (Nat.div_mod_eq (a + j) 10).
  pose proof (Nat.div_mod_eq i 10). pose proof (Nat.div_mod_eq j 10).
  pose proof (Nat.mod_upper_bound (a + i) 10). pose proof (Nat.mod_upper_bound (a + j) 10).
  pose proof (Nat.mod_upper_bound i 10). pose proof (Nat.mod_upper_bound j 10).
  lia.
Qed.

Lemma colours_by_identifier (p q : ref) (w : World) :
  exists cp cq,
    color_from_player p w = (Ok cp, w)
    /\ color_from_player q w = (Ok cq, w)
    /\ (cp = cq <-> (player_id (deref w p) mod 10 = player_id (deref w q) mod 10)%nat).
Proof.
  destruct (color_of_id p w) as (cp & Hp & Lp). destruct (color_of_id q w) as (cq & Hq & Lq).
  exists cp, cq. split; [exact Hp |]. split; [exact Hq |]. split.
  - intros <-. exact (NoDup_lookup _ _ _ _ colors_distinct Lp Lq).
  - intros E. rewrite E in Lp. congruence.
Qed.

(** X22: the colours of a new game.  For the players that
    [Game.__init__] has just made, [color_from_player] returns a colour and
    changes nothing, and two seats get the same colour exactly when their
    positions in the rotation differ by a multiple of ten: with at most ten
    names every player has a colour of its own, and from the eleventh name on
    colours repeat. *)
Theorem colours_of_a_new_game (names : list string) (n_dice n_faces : Z) (w : World) :
  1 <= n_faces \/ n_dice <= 0 ->
  exists w',
    Game_init names n_dice n_faces w = (Ok tt, w')
    /\ forall i j p q,
         players (game w') !! i = Some p -> players (game w') !! j = Some q ->
         exists cp cq,
           color_from_player p w' = (Ok cp, w')
           /\ color_from_player q w' = (Ok cq, w')
           /\ (cp = cq <-> (i mod 10 = j mod 10)%nat)
           /\ ((length names <= 10)%nat -> i <> j -> cp <> cq).
Proof.
  intros Hf. unfold Game_init. rewrite bind_update_game.
  set (w0 := set_game (mkGame n_dice n_faces [] None None None) w).
  destruct (init_loop_in_order names w0 Hf) as (w' & Hrun & Hg & _ & _ & _ & Hnew).
  exists w'. split; [exact Hrun |].
  assert (Hid : forall k r, players (game w') !! k = Some r ->
            (k < length names)%nat /\ player_id (deref w' r) = (pid_counter w + k)%nat).
  { intros k r Hk. rewrite Hg in Hk. simpl in Hk. apply lookup_seq in Hk.
    destruct Hk as [-> Hlt]. split; [exact Hlt |].
    destruct (lookup_lt_is_Some_2 names k Hlt) as [name Hname].
    destruct (Hnew k name Hname) as (d & Hd & _). change (pid_counter w0) with (pid_counter w) in Hd.
    rewrite Hd. reflexivity. }
  intros i j p q Hi Hj.
  destruct (Hid i p Hi) as [Hil Hip]. destruct (Hid j q Hj) as [Hjl Hjq].
  destruct (colours_by_identifier p q w') as (cp & cq & Hp & Hq & Heq).
  exists cp, cq. split; [exact Hp |]. split; [exact Hq |].
  rewrite Hip, Hjq, same_residue in Heq. split; [exact Heq |].
  intros Hlen Hne E. apply Heq in E.
  rewrite !Nat.mod_small in E by lia. contradiction.
Qed.

Lemma colours_of_a_new_game_witness :
  (1 <= 6 \/ 2 <= 0)
  /\ exists w' cp cq,
       Game_init ["ann"; "bob"] 2 6 one_face_table = (Ok tt, w')
       /\ color_from_player 0%nat w' = (Ok cp, w')
       /\ color_from_player 1%nat w' = (Ok cq, w')
       /\ cp <> cq.
Proof.
  assert (Hf : 1 <= 6 \/ 2 <= 0) by (left; lia).
  split; [exact Hf |].
  destruct (colours_of_a_new_game ["ann"; "bob"] 2 6 one_face_table Hf) as (w' & Hrun & Hcol).
  assert (Hw : w' = snd (Game_init ["ann"; "bob"] 2 6 one_face_table)) by (rewrite Hrun; reflexivity).
  assert (H0 : players (game w') !! 0%nat = Some 0%nat) by (rewrite Hw; reflexivity).
  assert (H1 : players (game w') !! 1%nat = Some 1%nat) by (rewrite Hw; reflexivity).
  destruct (Hcol 0%nat 1%nat 0%nat 1%nat H0 H1) as (cp & cq & Hp & Hq & _ & Hne).
  exists w', cp, cq. split; [exact Hrun |]. split; [exact Hp |]. split; [exact Hq |].
  apply Hne; [simpl; lia | discriminate].
Defined.

(** ** The prompts of the interface and the checks of the game *)

Section PromptProperties.

Variable isnumeric : string -> bool.
Variable int : string -> option Z.

Lemma ask_in_range_answer (hi : Z) (lines : list string) (v : Z) (rest : list string) :
  ask_in_range isnumeric int hi lines = Answered v rest ->
  1 <= v <= hi /\ (length rest < length lines)%nat.
Proof.
  induction lines as [| line lines IH]; simpl; [discriminate |].
  destruct (read_number isnumeric int line) as [x | e]; [| discriminate].
  destruct (Z.leb_spec 1 x) as [L1 | L1]; destruct (Z.leb_spec x hi) as [L2 | L2]; simpl;
    intros Hrun;
    try (apply IH in Hrun; destruct Hrun; split; [assumption | lia]).
  injection Hrun as <- <-. split; lia.
Qed.

Lemma ask_in_range_failure (hi : Z) (lines : list string) (e : exn) :
  ask_in_range isnumeric int hi lines = Failed e -> e = ValueError.
Proof.
  induction lines as [| line lines IH]; simpl; [discriminate |].
  unfold read_number. destruct (isnumeric line); [destruct (int line) as [x |] |].
  - destruct (negb ((1 <=? x) && (x <=? hi))); [exact IH | discriminate].
  - congruence.
  - simpl. exact IH.
Qed.

Lemma get_valid_bet_answer (w : World) (lines : list string) (b : Bet) (rest : list string) :
  get_valid_bet isnumeric int w lines = Answered b rest ->
  1 <= amount b /\ passes_range_checks w b /\ (length rest + 2 <= length lines)%nat.
Proof.
  unfold get_valid_bet.
  destruct (ask_in_range isnumeric int (dice_size (game w)) lines) as [f r1 | |] eqn:E1;
    [| discriminate | discriminate].
  destruct (ask_in_range isnumeric int (dice_in_play w) r1) as [c r2 | |] eqn:E2;
    [| discriminate | discriminate].
  intros H. injection H as <- <-.
  apply ask_in_range_answer in E1. apply ask_in_range_answer in E2.
  unfold passes_range_checks. simpl. lia.
Qed.

Lemma get_valid_bet_failure (w : World) (lines : list string) (e : exn) :
  get_valid_bet isnumeric int w lines = Failed e -> e = ValueError.
Proof.
  unfold get_valid_bet.
  destruct (ask_in_range isnumeric int (dice_size (game w)) lines) as [f r1 | e1 |] eqn:E1.
  - destruct (ask_in_range isnumeric int (dice_in_play w) r1) as [c r2 | e2 |] eqn:E2;
      [discriminate | | discriminate].
    intros H. injection H as <-. exact (ask_in_range_failure _ _ _ E2).
  - intros H. injection H as <-. exact (ask_in_range_failure _ _ _ E1).
  - discriminate.
Qed.

Lemma ask_higher_bet_fuel (w : World) (n : nat) : forall m lines,
  (length lines <= n)%nat -> (length lines <= m)%nat ->
  ask_higher_bet isnumeric int n w lines = ask_higher_bet isnumeric int m w lines.
Proof.
  induction n as [| n IH]; intros m lines Hn Hm.
  - destruct lines; [| simpl in Hn; lia]. destruct m; reflexivity.
  - destruct m as [| m].
    + destruct lines; [reflexivity | simpl in Hm; lia].
    + simpl. destruct (get_valid_bet isnumeric int w lines) as [b rest | |] eqn:E;
        try reflexivity.
      destruct (Bet_gt b (current_bet (game w))); [reflexivity |].
      apply get_valid_bet_answer in E. apply IH; lia.
Qed.

Lemma ask_higher_bet_answer (w : World) (n : nat) : forall lines b rest,
  ask_higher_bet isnumeric int n w lines = Answered b rest ->
  1 <= amount b /\ passes_range_checks w b
  /\ Bet_gt b (current_bet (game w)) = true
  /\ (length rest + 2 <= length lines)%nat.
Proof.
  induction n as [| n IH]; intros lines b rest; simpl; [discriminate |].
  destruct (get_valid_bet isnumeric int w lines) as [b1 r1 | |] eqn:E;
    [| discriminate | discriminate].
  apply get_valid_bet_answer in E.
  destruct (Bet_gt b1 (current_bet (game w))) eqn:G.
  - intros H. injection H as <- <-. tauto.
  - intros H. apply IH in H. destruct H as (H1 & H2 & H3 & H4). destruct E as (_ & _ & El).
    split; [exact H1 |]. split; [exact H2 |]. split; [exact H3 | lia].
Qed.

Lemma ask_higher_bet_failure (w : World) (n : nat) : forall lines e,
  ask_higher_bet isnumeric int n w lines = Failed e -> e = ValueError.
Proof.
  induction n as [| n IH]; intros lines e; simpl; [discriminate |].
  destruct (get_valid_bet isnumeric int w lines) as [b1 r1 | e1 |] eqn:E.
  - destruct (Bet_gt b1 (current_bet (game w))); [discriminate | apply IH].
  - intros H. injection H as <-. exact (get_valid_bet_failure _ _ _ E).
  - discriminate.
Qed.

(** X23: a bet that the prompt lets through is one that the game takes.
    When [get_valid_bet] returns, the bet's amount is between 1 and the
    number of dice in play and its face between 1 and the dice size, at least
    two lines have been read, and [Game.first_bet] accepts the bet: through
    the prompt a bet with amount zero never reaches the game.  Whatever is
    typed, [GameInterface.first_bet] from the prompt on never ends in a
    [GameError]: it makes the bet, stops at the end of the input, or fails
    with the [ValueError] of [int], the game untouched. *)
Theorem prompted_bet_is_accepted (w : World) (lines : list string) :
  (forall b rest,
     get_valid_bet isnumeric int w lines = Answered b rest ->
     1 <= amount b <= dice_in_play w
     /\ 1 <= face b <= dice_size (game w)
     /\ (length rest + 2 <= length lines)%nat
     /\ Game_first_bet b w = (Ok tt, set_game (with_current_bet (Some b) (game w)) w))
  /\ ((exists b rest,
         get_valid_bet isnumeric int w lines = Answered b rest
         /\ GameInterface_first_bet isnumeric int w lines
            = (Answered tt rest, set_game (with_current_bet (Some b) (game w)) w))
      \/ GameInterface_first_bet isnumeric int w lines = (Failed ValueError, w)
      \/ GameInterface_first_bet isnumeric int w lines = (EndOfInput, w)).
Proof.
  assert (Hacc : forall b rest,
     get_valid_bet isnumeric int w lines = Answered b rest ->
     1 <= amount b <= dice_in_play w
     /\ 1 <= face b <= dice_size (game w)
     /\ (length rest + 2 <= length lines)%nat
     /\ Game_first_bet b w = (Ok tt, set_game (with_current_bet (Some b) (game w)) w)).
  { intros b rest H. apply get_valid_bet_answer in H. destruct H as (H1 & Hr & Hl).
    pose proof (first_bet_accepted w b Hr) as Hrun. unfold passes_range_checks in Hr.
    repeat split; try tauto; try lia. }
  split; [exact Hacc |].
  unfold GameInterface_first_bet.
  destruct (get_valid_bet isnumeric int w lines) as [b rest | e |] eqn:E.
  - left. exists b, rest. split; [reflexivity |].
    destruct (Hacc b rest eq_refl) as (_ & _ & _ & Hrun). simpl. rewrite Hrun. reflexivity.
  - right. left. rewrite (get_valid_bet_failure _ _ _ E). reflexivity.
  - right. right. reflexivity.
Qed.

(** X24: the loop of [GameInterface.place_bet] keeps every [GameError]
    away from the player.  With a bet on the table, whatever is typed, the
    call either replaces the bet by one that is strictly above it, within the
    two ranges and with an amount of at least 1, or leaves the game as it is,
    at the end of the input or with the [ValueError] of [int].  Without a bet
    on the table the first bet typed passes the test and [Game.place_bet]
    fails with [AttributeError].  Rounds beyond the number of lines change
    nothing. *)
Theorem place_bet_loop_filters (w : World) (lines : list string) :
  (forall cur, current_bet (game w) = Some cur ->
     (exists b rest,
        1 <= amount b /\ passes_range_checks w b
        /\ Bet_lt cur (Some b) = Some true
        /\ (length rest + 2 <= length lines)%nat
        /\ GameInterface_place_bet isnumeric int w lines
           = (Answered tt rest, set_game (with_current_bet (Some b) (game w)) w))
     \/ GameInterface_place_bet isnumeric int w lines = (Failed ValueError, w)
     \/ GameInterface_place_bet isnumeric int w lines = (EndOfInput, w))
  /\ (current_bet (game w) = None ->
      GameInterface_place_bet isnumeric int w lines = (Failed AttributeError, w)
      \/ GameInterface_place_bet isnumeric int w lines = (Failed ValueError, w)
      \/ GameInterface_place_bet isnumeric int w lines = (EndOfInput, w))
  /\ (forall n, (length lines <= n)%nat ->
      ask_higher_bet isnumeric int n w lines
      = ask_higher_bet isnumeric int (length lines) w lines).
Proof.
  split; [| split].
  - intros cur Hc. unfold GameInterface_place_bet.
    destruct (ask_higher_bet isnumeric int (length lines) w lines) as [b rest | e |] eqn:E.
    + left. exists b, rest. apply ask_higher_bet_answer in E.
      destruct E as (H1 & Hr & Hgt & Hl). rewrite Hc in Hgt.
      assert (Hlt : tuple_lt (amount cur, face cur) (amount b, face b) = true).
      { unfold Bet_gt, Bet_lt, Bet_eq in Hgt. simpl default in Hgt.
        destruct (tuple_lt (amount cur, face cur) (amount b, face b)) eqn:E1;
          [reflexivity |].
        apply tuple_lt_false in E1.
        destruct (tuple_lt (amount b, face b) (amount cur, face cur)) eqn:E2;
          [discriminate |].
        apply tuple_lt_false in E2. simpl in Hgt.
        destruct (Z.eqb_spec (amount b) (amount cur)); simpl in Hgt; [| lia].
        destruct (Z.eqb_spec (face b) (face cur)); [discriminate | lia]. }
      split; [exact H1 |]. split; [exact Hr |].
      split; [unfold Bet_lt; rewrite Hlt; reflexivity |]. split; [exact Hl |].
      simpl. rewrite (place_bet_decides w cur b Hr Hc), Hlt. reflexivity.
    + right. left. rewrite (ask_higher_bet_failure _ _ _ _ E). reflexivity.
    + right. right. reflexivity.
  - intros Hc. unfold GameInterface_place_bet.
    destruct (ask_higher_bet isnumeric int (length lines) w lines) as [b rest | e |] eqn:E.
    + left. apply ask_higher_bet_answer in E. destruct E as (_ & Hr & _ & _).
      destruct Hr as [Ha [Hf Hg]]. simpl. unfold Game_place_bet. run.
      destruct (Z.ltb_spec (dice_in_play w) (amount b)); [lia |].
      destruct (Z.ltb_spec (dice_size (game w)) (face b)); [lia |].
      destruct (Z.ltb_spec (face b) 1); [lia |]. simpl. rewrite Hc. reflexivity.
    + right. left. rewrite (ask_higher_bet_failure _ _ _ _ E). reflexivity.
    + right. right. reflexivity.
  - intros n Hn. apply ask_higher_bet_fuel; [exact Hn | lia].
Qed.

End PromptProperties.

Lemma prompted_bet_is_accepted_witness :
  get_valid_bet ascii_isnumeric ascii_int table3_no_bet ["7"; "x"; "2"; "0"; "1"]
  = Answered (mkBet 1 2) []
  /\ Game_first_bet (mkBet 1 2) table3_no_bet
     = (Ok tt, set_game (with_current_bet (Some (mkBet 1 2)) (game table3_no_bet)) table3_no_bet).
Proof.
  assert (Hrun : get_valid_bet ascii_isnumeric ascii_int table3_no_bet
                   ["7"; "x"; "2"; "0"; "1"] = Answered (mkBet 1 2) [])
    by (vm_compute; reflexivity).
  split; [exact Hrun |].
  exact (proj2 (proj2 (proj2
           (proj1 (prompted_bet_is_accepted ascii_isnumeric ascii_int table3_no_bet
                     ["7"; "x"; "2"; "0"; "1"]) (mkBet 1 2) [] Hrun)))).
Defined.

Lemma place_bet_loop_filters_witness :
  current_bet (game table3) = Some (mkBet 1 2)
  /\ exists b rest,
       Bet_lt (mkBet 1 2) (Some b) = Some true
       /\ GameInterface_place_bet ascii_isnumeric ascii_int table3
            ["1"; "1"; "2"; "1"; "3"; "1"; "9"]
          = (Answered tt rest, set_game (with_current_bet (Some b) (game table3)) table3).
Proof.
  split; [reflexivity |].
  destruct (proj1 (place_bet_loop_filters ascii_isnumeric ascii_int table3
                     ["1"; "1"; "2"; "1"; "3"; "1"; "9"]) (mkBet 1 2) eq_refl)
    as [(b & rest & _ & _ & Hlt & _ & Hrun) | [Hrun | Hrun]].
  - exists b, rest. split; [exact Hlt | exact Hrun].
  - exfalso. vm_compute in Hrun. discriminate Hrun.
  - exfalso. vm_compute in Hrun. discriminate Hrun.
Defined.
